(** * mysqldump: literal encoding, row streaming, insert merging and replay

    A shallow embedding of the dump and replay code of the [mysqldump]
    package, and the properties of its value-serialisation and
    statement-replay engine.

    Go strings are byte sequences: they are modelled by [string], whose
    characters ([ascii]) are the 256 byte values.  A Go [error] value is
    [option error] ([None] is [nil]); a function returning [(T, error)]
    returns a [res T]. *)

From Stdlib Require Import String Ascii List ZArith Lia Bool Arith.
From Stdlib Require Import DecimalString.
From Equations Require Import Equations.
Import ListNotations.

Open Scope list_scope.
Open Scope string_scope.

(** ** Errors *)

(** [EOF] is the sentinel [io.EOF], compared by identity in the source;
    every other error is represented by its message. *)
Inductive error : Type :=
| EOF
| errorString (msg : string).

Inductive res (A : Type) : Type :=
| Ok (a : A)
| Err (e : error).
Arguments Ok {A} a.
Arguments Err {A} e.

Definition is_EOF (e : error) : bool :=
  match e with EOF => true | errorString _ => false end.

(** ** The functions of Go's [strings] package that the code calls *)

Module strings.

(** [len(s)] *)
Definition len (s : string) : nat := String.length s.

(** [s[n:]] *)
Fixpoint sliceFrom (n : nat) (s : string) : string :=
  match n, s with
  | O, _ => s
  | S _, EmptyString => EmptyString
  | S n', String _ s' => sliceFrom n' s'
  end.

(** [s[:n]] *)
Fixpoint sliceTo (n : nat) (s : string) : string :=
  match n, s with
  | O, _ => EmptyString
  | S _, EmptyString => EmptyString
  | S n', String c s' => String c (sliceTo n' s')
  end.

(** [strings.HasPrefix]: [len(s) >= len(prefix) && s[:len(prefix)] == prefix]. *)
Fixpoint HasPrefix (s prefix : string) {struct prefix} : bool :=
  match prefix with
  | EmptyString => true
  | String p prefix' =>
      match s with
      | EmptyString => false
      | String c s' => Ascii.eqb c p && HasPrefix s' prefix'
      end
  end.

(** [strings.HasSuffix]:
    [len(s) >= len(suffix) && s[len(s)-len(suffix):] == suffix]. *)
Definition HasSuffix (s suffix : string) : bool :=
  (len suffix <=? len s)%nat
  && String.eqb (sliceFrom (len s - len suffix) s) suffix.

(** [strings.TrimPrefix] *)
Definition TrimPrefix (s prefix : string) : string :=
  if HasPrefix s prefix then sliceFrom (len prefix) s else s.

(** [strings.TrimSuffix] *)
Definition TrimSuffix (s suffix : string) : string :=
  if HasSuffix s suffix then sliceTo (len s - len suffix) s else s.

(** [strings.Index]: the byte offset of the first occurrence of [substr],
    [-1] when there is none. *)
Fixpoint indexFrom (i : Z) (s substr : string) : Z :=
  if HasPrefix s substr then i
  else match s with
       | EmptyString => (-1)%Z
       | String _ s' => indexFrom (i + 1) s' substr
       end.

Definition Index (s substr : string) : Z := indexFrom 0 s substr.

(** [strings.Contains]: [Index(s, substr) >= 0]. *)
Definition Contains (s substr : string) : bool :=
  (0 <=? Index s substr)%Z.

(** [strings.Replace(s, old, new, -1)] for a non-empty [old]: every
    non-overlapping occurrence, scanning from the left.  [skip] counts
    the bytes of a matched occurrence still to be passed over. *)
Fixpoint replaceFrom (skip : nat) (s old new : string) : string :=
  match s with
  | EmptyString => EmptyString
  | String c s' =>
      match skip with
      | S k => replaceFrom k s' old new
      | O =>
          if HasPrefix s old
          then new ++ replaceFrom (len old - 1) s' old new
          else String c (replaceFrom 0 s' old new)
      end
  end.

Definition ReplaceAll (s old new : string) : string :=
  replaceFrom 0 s old new.

(** [strings.TrimLeft(s, cutset)] for a cutset of single-byte characters. *)
Fixpoint inCutset (c : ascii) (cutset : string) : bool :=
  match cutset with
  | EmptyString => false
  | String d cutset' => Ascii.eqb c d || inCutset c cutset'
  end.

Fixpoint TrimLeft (s cutset : string) : string :=
  match s with
  | EmptyString => EmptyString
  | String c s' => if inCutset c cutset then TrimLeft s' cutset else s
  end.

Fixpoint TrimRight (s cutset : string) : string :=
  match s with
  | EmptyString => EmptyString
  | String c s' =>
      let r := TrimRight s' cutset in
      if String.eqb r "" && inCutset c cutset then EmptyString else String c r
  end.

(** The six ASCII white-space bytes: tab, line feed, vertical tab, form
    feed, carriage return, blank. *)
Definition asciiSpace : string :=
  String "009" (String "010" (String "011" (String "012" (String "013" " ")))).

(** [strings.TrimSpace] on text whose white space is ASCII. *)
Definition TrimSpaceASCII (s : string) : string :=
  TrimRight (TrimLeft s asciiSpace) asciiSpace.

End strings.

(** ** [mergeInsert] *)

(** The loop [for i, insertSQL := range insertSQLs[1:]]: [n] is
    [len(insertSQLs)], [i] the loop index, [builder] the text accumulated
    in the [strings.Builder]. *)
Fixpoint mergeInsert_loop (n i : Z) (rest : list string) (builder : string)
  : res string :=
  match rest with
  | [] => Ok builder
  | insertSQL :: rest' =>
      let builder := if (i <? n - 1)%Z then builder ++ "," else builder in
      let valuesIdx := strings.Index insertSQL "VALUES" in
      if (valuesIdx =? -1)%Z
      then Err (errorString "invalid SQL: missing VALUES keyword")
      else
        let dml := strings.sliceFrom (Z.to_nat valuesIdx) insertSQL in
        let dml := strings.TrimPrefix dml "VALUES" in
        let dml := strings.TrimSuffix dml ";" in
        mergeInsert_loop n (i + 1) rest' (builder ++ dml)
  end.

Definition mergeInsert (insertSQLs : list string) : res string :=
  match insertSQLs with
  | [] => Err (errorString "no input provided")
  | sql0 :: rest =>
      let sql1 := strings.TrimSuffix sql0 ";" in
      match mergeInsert_loop (Z.of_nat (List.length insertSQLs)) 0 rest sql1 with
      | Ok builder => Ok (builder ++ ";")
      | Err e => Err e
      end
  end.

(** ** Values handed over by the database driver *)

(** [time.Time], by its civil fields in the value's own location. *)
Record Time : Type := mkTime {
  Year : Z; Month : Z; Day : Z; Hour : Z; Minute : Z; Second : Z
}.

(** The dynamic types a [driver.Value] scanned into an [interface{}] can
    have.  [VFloat64] carries the IEEE 754 binary64 bit pattern. *)
Inductive value : Type :=
| VNil
| VBytes (bs : string)
| VString (s : string)
| VInt64 (n : Z)
| VFloat64 (bits : Z)
| VBool (b : bool)
| VTime (t : Time).

(** The name [fmt] and the run time print for a dynamic type. *)
Definition typeName (v : value) : string :=
  match v with
  | VNil => "nil"
  | VBytes _ => "[]uint8"
  | VString _ => "string"
  | VInt64 _ => "int64"
  | VFloat64 _ => "float64"
  | VBool _ => "bool"
  | VTime _ => "time.Time"
  end.

(** [sql.ColumnType], by the two accessors the code calls. *)
Record ColumnType : Type := mkColumnType {
  Name : string;
  DatabaseTypeName : string
}.

(** ** Formatting *)

(** Decimal text of an integer, as [%d] prints an [int64]. *)
Definition decimal (n : Z) : string := NilZero.string_of_int (Z.to_int n).

Fixpoint zeros (k : nat) : string :=
  match k with O => "" | S k' => String "0" (zeros k') end.

(** Zero-padded decimal of width [w], as [Time.Format] prints a field
    that is not negative. *)
Definition pad (w : nat) (n : Z) : string :=
  let s := decimal n in zeros (w - strings.len s) ++ s.

(** [t.Format(layout)] for layouts made of the reference elements the code
    uses ([2006], [01], [02], [15], [04], [05]) and literal text. *)
Fixpoint formatFrom (skip : nat) (layout : string) (t : Time) : string :=
  match layout with
  | EmptyString => EmptyString
  | String c layout' =>
      match skip with
      | S k => formatFrom k layout' t
      | O =>
          if strings.HasPrefix layout "2006" then pad 4 (Year t) ++ formatFrom 3 layout' t
          else if strings.HasPrefix layout "01" then pad 2 (Month t) ++ formatFrom 1 layout' t
          else if strings.HasPrefix layout "02" then pad 2 (Day t) ++ formatFrom 1 layout' t
          else if strings.HasPrefix layout "15" then pad 2 (Hour t) ++ formatFrom 1 layout' t
          else if strings.HasPrefix layout "04" then pad 2 (Minute t) ++ formatFrom 1 layout' t
          else if strings.HasPrefix layout "05" then pad 2 (Second t) ++ formatFrom 1 layout' t
          else String c (formatFrom 0 layout' t)
      end
  end.

Definition Format (t : Time) (layout : string) : string := formatFrom 0 layout t.

Definition hexDigit (n : nat) : ascii :=
  match n with
  | 0 => "0" | 1 => "1" | 2 => "2" | 3 => "3" | 4 => "4" | 5 => "5" | 6 => "6"
  | 7 => "7" | 8 => "8" | 9 => "9" | 10 => "A" | 11 => "B" | 12 => "C"
  | 13 => "D" | 14 => "E" | _ => "F"
  end%char.

(** Upper-case hexadecimal of a byte string, two digits a byte. *)
Fixpoint hexUpper (bs : string) : string :=
  match bs with
  | EmptyString => EmptyString
  | String c bs' =>
      let n := nat_of_ascii c in
      String (hexDigit (n / 16)) (String (hexDigit (n mod 16)) (hexUpper bs'))
  end.

(** Membership of a [switch] case list. *)
Definition oneOf (s : string) (cases : list string) : bool :=
  existsb (String.eqb s) cases.

(** Control flow of a block of the function body. *)
Inductive flow (A : Type) : Type :=
| Continue (a : A)
| Return (err : option error)
| Panic (msg : string).
Arguments Continue {A} a.
Arguments Return {A} err.
Arguments Panic {A} msg.

(** ** [writeTableData] (dump.go) *)

Section Dump.

(** What [fmt.Sprintf] prints for an operand under a verb in the cases left
    open below: a [float64] under [%f], and operands whose dynamic type does
    not fit the verb. *)
Variable fmtOther : string -> value -> string.

(** [strings.TrimSpace], which trims Unicode white space. *)
Variable TrimSpace : string -> string.

Definition Sprintf_d (col : value) : string :=
  match col with
  | VInt64 n => decimal n
  | _ => fmtOther "%d" col
  end.

Definition Sprintf_f (col : value) : string := fmtOther "%f" col.

Definition Sprintf_s (col : value) : string :=
  match col with
  | VBytes s | VString s => s
  | _ => fmtOther "%s" col
  end.

Definition Sprintf_X (col : value) : string :=
  match col with
  | VBytes s | VString s => hexUpper s
  | _ => fmtOther "%X" col
  end.

(** The type name the [switch] dispatches on: [UNSIGNED] and blanks removed. *)
Definition canonicalType (Type_ : string) : string :=
  let Type_ := strings.ReplaceAll Type_ "UNSIGNED" "" in
  strings.ReplaceAll Type_ " " "".

Definition integerFamily : list string :=
  ["TINYINT"; "SMALLINT"; "MEDIUMINT"; "INT"; "INTEGER"; "BIGINT"].
Definition characterFamily : list string :=
  ["CHAR"; "VARCHAR"; "TINYTEXT"; "TEXT"; "MEDIUMTEXT"; "LONGTEXT"].
Definition binaryFamily : list string :=
  ["BIT"; "BINARY"; "VARBINARY"; "TINYBLOB"; "BLOB"; "MEDIUMBLOB"; "LONGBLOB"].

(** The body of [if col == nil { ... } else { ... switch Type { ... } }] for
    one column: [err] is the function's variable [err] at that point, [dml]
    the statement text built so far. *)
Definition writeTableData_column (withoutPrimaryID : bool) (err : option error)
  (columnType : ColumnType) (col : value) (dml : string) : flow string :=
  match col with
  | VNil => Continue (dml ++ "NULL")
  | _ =>
      let Type_ := canonicalType (DatabaseTypeName columnType) in
      let columnName := Name columnType in
      if oneOf Type_ integerFamily then
        match col with
        | VBytes bs =>
            if withoutPrimaryID && String.eqb columnName "id"
            then Continue (dml ++ "0")
            else Continue (dml ++ bs)
        | _ => Continue (dml ++ Sprintf_d col)
        end
      else if oneOf Type_ ["FLOAT"; "DOUBLE"] then
        match col with
        | VBytes bs => Continue (dml ++ bs)
        | _ => Continue (dml ++ Sprintf_f col)
        end
      else if oneOf Type_ ["DECIMAL"; "DEC"] then
        Continue (dml ++ Sprintf_s col)
      else if oneOf Type_ ["DATE"] then
        match col with
        | VTime t => Continue (dml ++ "'" ++ Format t "2006-01-02" ++ "'")
        | _ => Return err
        end
      else if oneOf Type_ ["DATETIME"] then
        match col with
        | VTime t => Continue (dml ++ "'" ++ Format t "2006-01-02 15:04:05" ++ "'")
        | _ => Return err
        end
      else if oneOf Type_ ["TIMESTAMP"] then
        match col with
        | VTime t => Continue (dml ++ "'" ++ Format t "2006-01-02 15:04:05" ++ "'")
        | _ => Return err
        end
      else if oneOf Type_ ["TIME"] then
        match col with
        | VBytes t => Continue (dml ++ "'" ++ t ++ "'")
        | _ => Return err
        end
      else if oneOf Type_ ["YEAR"] then
        match col with
        | VBytes t => Continue (dml ++ t)
        | _ => Return err
        end
      else if oneOf Type_ characterFamily then
        Continue (dml ++ "'" ++ strings.ReplaceAll (Sprintf_s col) "'" "''" ++ "'")
      else if oneOf Type_ binaryFamily then
        Continue (dml ++ "0x" ++ Sprintf_X col)
      else if oneOf Type_ ["ENUM"; "SET"] then
        Continue (dml ++ "'" ++ Sprintf_s col ++ "'")
      else if oneOf Type_ ["BOOL"; "BOOLEAN"] then
        match col with
        | VBool true => Continue (dml ++ "true")
        | VBool false => Continue (dml ++ "false")
        | _ => Panic ("interface conversion: interface {} is "
                        ++ typeName col ++ ", not bool")
        end
      else if oneOf Type_ ["JSON"] then
        Continue (dml ++ "'" ++ Sprintf_s col ++ "'")
      else
        Return (Some (errorString ("unsupported type: " ++ Type_)))
  end.

(** The loop [for i, col := range row]: [n] is [len(row)], [i] the index. *)
Fixpoint writeTableData_row (withoutPrimaryID : bool) (err : option error)
  (columnTypes : list ColumnType) (n i : Z) (row : list value) (dml : string)
  : flow string :=
  match row with
  | [] => Continue dml
  | col :: row' =>
      match nth_error columnTypes (Z.to_nat i) with
      | None => Panic "index out of range"
      | Some columnType =>
          match writeTableData_column withoutPrimaryID err columnType col dml with
          | Continue dml =>
              let dml := if (i <? n - 1)%Z then dml ++ "," else dml in
              writeTableData_row withoutPrimaryID err columnTypes n (i + 1) row' dml
          | Return e => Return e
          | Panic msg => Panic msg
          end
      end
  end.

(** What the calling goroutine does that others can observe, in program
    order: writes to the sink, starting the consumer, sends on [writeCh],
    the send on [done]. *)
Inductive event : Type :=
| EWrite (s : string)
| EGo
| ESend (dml : string)
| EDone.

Inductive outcome : Type :=
| Returned (err : option error)
| Panicked (msg : string).

(** [*sql.Rows]: the results of [Columns()] and [ColumnTypes()], and for
    each [Next()] that reports a row what [Scan] leaves in [row] (one value
    a column) or its error. *)
Record Rows : Type := mkRows {
  Columns : res (list string);
  ColumnTypes : res (list ColumnType);
  fetched : list (res (list value))
}.

(** [*sql.DB]: the result of [db.Query] for a query text. *)
Definition DB : Type := string -> res Rows.

(** The closure that builds the query text. *)
Definition selectQuery (table where_ : string) : string :=
  let dml := "SELECT * FROM `" ++ table ++ "`" in
  if negb (String.eqb (TrimSpace where_) "")
  then dml ++ " where " ++ where_
  else dml.

(** The loop [for lineRows.Next() { ... }]; [tr] is the trace so far. *)
Fixpoint writeTableData_rows (withoutPrimaryID : bool) (table : string)
  (columnTypes : list ColumnType) (rows : list (res (list value)))
  (tr : list event) : list event * flow unit :=
  match rows with
  | [] => (tr, Continue tt)
  | scan :: rows' =>
      match scan with
      | Err e => (tr, Return (Some e))
      | Ok row =>
          (* err = lineRows.Scan(rowPointers...) was nil *)
          let err : option error := None in
          let dml := "INSERT INTO `" ++ table ++ "` VALUES (" in
          match writeTableData_row withoutPrimaryID err columnTypes
                  (Z.of_nat (List.length row)) 0 row dml with
          | Continue dml =>
              let dml := dml ++ ");" ++ String "010" "" in
              writeTableData_rows withoutPrimaryID table columnTypes rows'
                (tr ++ [ESend dml])%list
          | Return e => (tr, Return e)
          | Panic msg => (tr, Panic msg)
          end
      end
  end.

Definition nl : string := String "010" "".

Definition writeTableData (db : DB) (table where_ : string)
  (withoutPrimaryID : bool) : list event * outcome :=
  let tr := [EWrite ("-- ----------------------------" ++ nl);
             EWrite ("-- Records of " ++ table ++ nl);
             EWrite ("-- ----------------------------" ++ nl)] in
  match db (selectQuery table where_) with
  | Err e => (tr, Returned (Some e))
  | Ok lineRows =>
      match Columns lineRows with
      | Err e => (tr, Returned (Some e))
      | Ok columns =>
          match ColumnTypes lineRows with
          | Err e => (tr, Returned (Some e))
          | Ok columnTypes =>
              let tr := (tr ++ [EGo])%list in
              match writeTableData_rows withoutPrimaryID table columnTypes
                      (fetched lineRows) tr with
              | (tr, Continue _) =>
                  (tr ++ [EWrite (nl ++ nl); EDone], Returned None)%list
              | (tr, Return e) => (tr, Returned e)
              | (tr, Panic msg) => (tr, Panicked msg)
              end
          end
      end
  end.

End Dump.

(** ** [writeViaBuf] and the two channels (dump.go) *)

Inductive goroutine : Type := Producer | Consumer.

(** Calls made on the [SafeWriter], in the order in which they are made.
    A [WriteString] is one call, whether or not it makes the buffer flush
    first.  The type has no lock: the goroutine running [writeTableData]
    calls [WriteString] while the one running [writeViaBuf] may be inside
    [WriteString] or [Flush].  The list orders the calls of the two
    goroutines; it is not a model of the bytes that the shared
    [bufio.Writer] holds after calls that overlap. *)
Inductive sinkOp : Type :=
| SWrite (g : goroutine) (s : string)
| SFlush.

(** Where the goroutine running [writeViaBuf] stands: not started; at the
    top of its loop, about to run or blocked in [select]; holding [data]
    received from [writeCh] and not yet written; returned. *)
Inductive consumer : Type :=
| CIdle
| CSelect
| CWrite (data : string)
| CReturned.

(** [prog] is what the goroutine running [writeTableData] has still to do;
    [writeCh] and [done] are the contents of the two channels of capacity 1. *)
Record state : Type := mkState {
  prog : list event;
  writeCh : option string;
  done : bool;
  cons : consumer;
  sink : list sinkOp
}.

(** A scheduling decision: the producer performs its next event, or the
    consumer's [select] takes the case of [writeCh] or that of [done]
    (when both are ready Go picks one at random), or the consumer performs
    the write of the data it holds. *)
Inductive choice : Type :=
| Prod
| SelectData
| SelectDone
| Write.

(** The next event of the goroutine running [writeTableData]; [None]
    when it cannot proceed (a send on a full channel blocks). *)
Definition writeTableData_next (st : state) : option state :=
  match prog st with
  | EWrite s :: p =>
      Some (mkState p (writeCh st) (done st) (cons st)
              (sink st ++ [SWrite Producer s])%list)
  | EGo :: p =>
      match cons st with
      | CIdle => Some (mkState p (writeCh st) (done st) CSelect (sink st))
      | _ => None
      end
  | ESend dml :: p =>
      match writeCh st with
      | None => Some (mkState p (Some dml) (done st) (cons st) (sink st))
      | Some _ => None
      end
  | EDone :: p =>
      if done st then None
      else Some (mkState p (writeCh st) true (cons st) (sink st))
  | [] => None
  end.

(** [writeViaBuf]: one move of the loop
    [for { select { case data := <-writeCh: ...; case <-done: ... } }];
    [None] when the chosen case is not ready (a receive on an empty channel
    blocks). *)
Definition writeViaBuf (c : choice) (st : state) : option state :=
  match c with
  | Prod => None
  | SelectData =>
      match cons st, writeCh st with
      | CSelect, Some data =>
          Some (mkState (prog st) None (done st) (CWrite data) (sink st))
      | _, _ => None
      end
  | Write =>
      match cons st with
      | CWrite data =>
          Some (mkState (prog st) (writeCh st) (done st) CSelect
                  (sink st ++ [SWrite Consumer data])%list)
      | _ => None
      end
  | SelectDone =>
      match cons st, done st with
      | CSelect, true =>
          Some (mkState (prog st) (writeCh st) false CReturned
                  (sink st ++ [SFlush])%list)
      | _, _ => None
      end
  end.

(** One step of the two goroutines: a channel operation, or a call on the
    writer, which is recorded when it is made. *)
Definition step (c : choice) (st : state) : option state :=
  match c with
  | Prod => writeTableData_next st
  | _ => writeViaBuf c st
  end.

Fixpoint run (schedule : list choice) (st : state) : option state :=
  match schedule with
  | [] => Some st
  | c :: schedule' =>
      match step c st with
      | Some st' => run schedule' st'
      | None => None
      end
  end.

Definition start (tr : list event) : state := mkState tr None false CIdle [].

(** The statements sent on [writeCh] by a trace. *)
Fixpoint sends (tr : list event) : list string :=
  match tr with
  | [] => []
  | ESend dml :: tr' => dml :: sends tr'
  | _ :: tr' => sends tr'
  end.

(** The texts a goroutine has passed to [WriteString], in the order of its
    calls. *)
Fixpoint writesOf (g : goroutine) (ops : list sinkOp) : list string :=
  match ops with
  | [] => []
  | SWrite Producer s :: ops' =>
      match g with Producer => s :: writesOf g ops' | Consumer => writesOf g ops' end
  | SWrite Consumer s :: ops' =>
      match g with Consumer => s :: writesOf g ops' | Producer => writesOf g ops' end
  | SFlush :: ops' => writesOf g ops'
  end.

(** Both goroutines are through: nothing more will reach the sink. *)
Definition finished (st : state) : bool :=
  match prog st, cons st with
  | [], CReturned => true
  | _, _ => false
  end.

(** ** [Source] *)

(** The field [mergeInsert] of the source is [mergeInsertSize] here: the
    name is taken by the function [mergeInsert]. *)
Record sourceOption : Type := mkSourceOption {
  dryRun : bool;
  mergeInsertSize : Z;
  debug : bool
}.

Definition SourceOption : Type := sourceOption -> sourceOption.

Definition WithDryRun : SourceOption :=
  fun o => mkSourceOption true (mergeInsertSize o) (debug o).
Definition WithMergeInsert (size : Z) : SourceOption :=
  fun o => mkSourceOption (dryRun o) size (debug o).
Definition WithDebug : SourceOption :=
  fun o => mkSourceOption (dryRun o) (mergeInsertSize o) true.

(** [bufio.Reader] as seen through [ReadString(';')]: the delimited lines
    still to come, then the text after the last delimiter, then the error
    of the underlying reader ([EOF] at a clean end). *)
Record Reader : Type := mkReader {
  pending : list string;
  rest : string;
  fail : error
}.

Definition ReadString (r : Reader) : string * option error * Reader :=
  match pending r with
  | line :: ls => (line, None, mkReader ls (rest r) (fail r))
  | [] => (rest r, Some (fail r), mkReader [] "" (fail r))
  end.

(** The lines of a text: each ends with its [;]; the second component is
    what follows the last [;]. *)
Fixpoint cutLines (s : string) : list string * string :=
  match s with
  | EmptyString => ([], EmptyString)
  | String c s' =>
      let '(ls, tl) := cutLines s' in
      if Ascii.eqb c ";" then (String c "" :: ls, tl)
      else match ls with
           | [] => ([], String c tl)
           | l :: ls' => (String c l :: ls', tl)
           end
  end.

(** [bufio.NewReader(strings.NewReader(s))] *)
Definition NewReader (s : string) : Reader :=
  let '(ls, tl) := cutLines s in mkReader ls tl EOF.

(** [for _, opt := range opts { opt(&o) }] on the zero value of the record. *)
Definition applyOptions (opts : list SourceOption) : sourceOption :=
  fold_left (fun o opt => opt o) opts (mkSourceOption false 0 false).

Definition inspect {A : Type} (a : A) : {b : A | a = b} := exist _ a eq_refl.

Section Source.

(** [strings.TrimSpace], which trims Unicode white space. *)
Variable TrimSpace : string -> string.

(** [GetDBNameFromDNS], defined in another file of the package. *)
Variable GetDBNameFromDNS : string -> res string.

(** The error of [sql.Open("mysql", dns)]. *)
Variable sqlOpen : string -> option error.

(** The error of [db.DB.Exec(query)] on the connection, given the queries
    passed to the wrapper before. *)
Variable dbExec : list string -> string -> option error.

Definition trim (s : string) : res string :=
  let s := strings.TrimLeft s nl in
  let s := TrimSpace s in
  Ok s.

(** [dbWrapper.Exec]: [log] records the queries passed to it. *)
Definition dbWrapper_Exec (o : sourceOption) (log : list string) (query : string)
  : list string * option error :=
  ((log ++ [query])%list, if dryRun o then None else dbExec log query).

(** The loop [for i := 0; i < o.mergeInsert-1; i++]: [count] iterations are
    left. *)
Fixpoint Source_pull (count : nat) (r : Reader) (insertSQLs : list string)
  : res (list string * Reader) :=
  match count with
  | O => Ok (insertSQLs, r)
  | S count' =>
      let '(line, err, r) := ReadString r in
      match err with
      | Some e => if is_EOF e then Ok (insertSQLs, r) else Err e
      | None =>
          match trim line with
          | Err e => Err e
          | Ok dml =>
              if strings.HasPrefix dml "INSERT INTO"
              then Source_pull count' r (insertSQLs ++ [dml])%list
              else Ok (insertSQLs, r)
          end
      end
  end.

(** How one pass through the body of the outer [for] ends. *)
Inductive iteration : Type :=
| Break
| Fail (e : error)
| Next (r : Reader).

Definition Source_iter (o : sourceOption) (r : Reader) (log : list string)
  : list string * iteration :=
  let '(line, err, r) := ReadString r in
  match err with
  | Some e => if is_EOF e then (log, Break) else (log, Fail e)
  | None =>
      match trim line with
      | Err e => (log, Fail e)
      | Ok dml =>
          let merged :=
            if (1 <? mergeInsertSize o)%Z && strings.HasPrefix dml "INSERT INTO"
            then
              match Source_pull (Z.to_nat (mergeInsertSize o - 1)) r [dml] with
              | Err e => Err e
              | Ok (insertSQLs, r) =>
                  match mergeInsert insertSQLs with
                  | Err e => Err e
                  | Ok dml => Ok (dml, r)
                  end
              end
            else Ok (dml, r) in
          match merged with
          | Err e => (log, Fail e)
          | Ok (dml, r) =>
              let '(log, err) := dbWrapper_Exec o log dml in
              match err with
              | Some e => (log, Fail e)
              | None => (log, Next r)
              end
          end
      end
  end.

(** The outer [for { ... }]: the queries passed to the wrapper, and the
    error the function returns from inside the loop ([None] after [break]). *)
Equations? Source_loop (o : sourceOption) (r : Reader) (log : list string)
  : list string * option error by wf (List.length (pending r)) lt :=
  Source_loop o r log with inspect (Source_iter o r log) := {
    | exist _ (log', Break) _ => (log', None)
    | exist _ (log', Fail e) _ => (log', Some e)
    | exist _ (log', Next r') Hiter => Source_loop o r' log'
  }.
Proof.
  assert (Hpull : forall count r0 acc acc' r1,
             Source_pull count r0 acc = Ok (acc', r1) ->
             List.length (pending r1) <= List.length (pending r0)).
  { induction count as [|count IH]; intros r0 acc acc' r1 H; cbn -[strings.HasPrefix] in H.
    - now inversion H.
    - unfold ReadString in H. destruct (pending r0) as [|l ls] eqn:Hp.
      + destruct (is_EOF (fail r0)); inversion H; subst; cbn; lia.
      + destruct (strings.HasPrefix _ "INSERT INTO") in H.
        * apply IH in H. cbn [pending] in H. cbn [List.length]. lia.
        * inversion H; subst. cbn [pending List.length]. lia. }
  unfold Source_iter, ReadString in Hiter.
  destruct (pending r) as [|l ls] eqn:Hp.
  - destruct (is_EOF (fail r)); discriminate.
  - cbn [trim] in Hiter.
    destruct ((1 <? mergeInsertSize o)%Z && strings.HasPrefix _ "INSERT INTO") in Hiter.
    + destruct (Source_pull _ _ _) as [[sqls r1]|] eqn:Hs; [|discriminate].
      destruct (mergeInsert sqls) as [dml|]; [|discriminate].
      unfold dbWrapper_Exec in Hiter.
      destruct (if dryRun o then None else dbExec log dml);
        inversion Hiter; subst.
      apply Hpull in Hs. cbn [pending] in Hs. cbn [List.length]. lia.
    + unfold dbWrapper_Exec in Hiter.
      destruct (if dryRun o then None else dbExec log _);
        inversion Hiter; subst.
      cbn [pending List.length]. lia.
Qed.

Definition Source (dns : string) (reader : Reader) (opts : list SourceOption)
  : list string * option error :=
  let o := applyOptions opts in
  match GetDBNameFromDNS dns with
  | Err e => ([], Some e)
  | Ok dbName =>
      match sqlOpen dns with
      | Some e => ([], Some e)
      | None =>
          let '(log, err) := dbWrapper_Exec o [] ("USE " ++ dbName ++ ";") in
          match err with
          | Some e => (log, Some e)
          | None =>
              let '(log, err) := dbWrapper_Exec o log "SET autocommit=0;" in
              match err with
              | Some e => (log, Some e)
              | None =>
                  match Source_loop o reader log with
                  | (log, Some e) => (log, Some e)
                  | (log, None) =>
                      let '(log, err) := dbWrapper_Exec o log "COMMIT;" in
                      match err with
                      | Some e => (log, Some e)
                      | None =>
                          let '(log, err) :=
                            dbWrapper_Exec o log "SET autocommit=1;" in
                          match err with
                          | Some e => (log, Some e)
                          | None => (log, None)
                          end
                      end
                  end
              end
          end
      end
  end.

End Source.

(** ** The rest of dump.go: table structure and [Dump] *)

(** [strings.Replace(s, old, new, n)] for a non-empty [old]: the first [n]
    non-overlapping occurrences, all of them when [n < 0].  [left] counts
    the replacements still allowed. *)
Fixpoint replaceUpTo (skip left : nat) (s old new : string) : string :=
  match s with
  | EmptyString => EmptyString
  | String c s' =>
      match skip with
      | S k => replaceUpTo k left s' old new
      | O =>
          match left with
          | O => s
          | S left' =>
              if strings.HasPrefix s old
              then new ++ replaceUpTo (strings.len old - 1) left' s' old new
              else String c (replaceUpTo 0 left s' old new)
          end
      end
  end.

Definition Replace (s old new : string) (n : Z) : string :=
  if (n <? 0)%Z then strings.ReplaceAll s old new
  else replaceUpTo 0 (Z.to_nat n) s old new.

(** [*sql.DB] as [Dump] and its helpers use it: what each call returns,
    given the queries passed to [Exec] before.  [queryStrings] is
    [db.Query(q)] with, for each row, the result of [rows.Scan(&s)];
    [queryRowScan2] is [db.QueryRow(q).Scan(&a, &b)], giving [b]. *)
Record SQLDB : Type := mkSQLDB {
  execOn : list string -> string -> option error;
  queryOn : list string -> DB;
  queryStrings : list string -> string -> res (list (res string));
  queryRowScan2 : list string -> string -> res string
}.

Definition getCreateTableSQL (db : SQLDB) (hist : list string) (table : string)
  : res string :=
  match queryRowScan2 db hist ("SHOW CREATE TABLE `" ++ table ++ "`") with
  | Err e => Err e
  | Ok createTableSQL =>
      Ok (Replace createTableSQL "CREATE TABLE" "CREATE TABLE IF NOT EXISTS" 1)
  end.

(** The loop [for rows.Next() { ... }] of [getDBs] and of [getAllTables]. *)
Fixpoint scanNames (rows : list (res string)) (names : list string)
  : res (list string) :=
  match rows with
  | [] => Ok names
  | Err e :: _ => Err e
  | Ok name :: rows' => scanNames rows' (names ++ [name])%list
  end.

Definition getDBs (db : SQLDB) (hist : list string) : res (list string) :=
  match queryStrings db hist "SHOW DATABASES" with
  | Err e => Err e
  | Ok rows => scanNames rows []
  end.

Definition getAllTables (db : SQLDB) (hist : list string) : res (list string) :=
  match queryStrings db hist "SHOW TABLES" with
  | Err e => Err e
  | Ok rows => scanNames rows []
  end.

(** [writeTableStruct]: its writes to the buffer and the error returned. *)
Definition writeTableStruct (db : SQLDB) (hist : list string) (table : string)
  : list event * option error :=
  let tr := [EWrite ("-- ----------------------------" ++ nl);
             EWrite ("-- Table structure for " ++ table ++ nl);
             EWrite ("-- ----------------------------" ++ nl)] in
  match getCreateTableSQL db hist table with
  | Err e => (tr, Some e)
  | Ok createTableSQL =>
      ((tr ++ [EWrite createTableSQL; EWrite ";";
               EWrite (nl ++ nl); EWrite (nl ++ nl)])%list,
       None)
  end.

(** An [io.Writer] to dump to. *)
Inductive ioWriter : Type :=
| osStdout
| userWriter (id : nat).

Definition BufferSize : Z := Z.shiftl 1 20.

Record dumpOption : Type := mkDumpOption {
  isData : bool;
  dbs : list string;
  isAllDB : bool;
  tables : list string;
  isAllTable : bool;
  isDropTable : bool;
  isDumpTable : bool;
  where_ : string;
  writer : option ioWriter;
  withoutPrimaryID : bool
}.

Definition DumpOption : Type := dumpOption -> dumpOption.

Definition WithData : DumpOption :=
  fun o => mkDumpOption true (dbs o) (isAllDB o) (tables o) (isAllTable o)
             (isDropTable o) (isDumpTable o) (where_ o) (writer o)
             (withoutPrimaryID o).
Definition WithDBs (databases : list string) : DumpOption :=
  fun o => mkDumpOption (isData o) databases (isAllDB o) (tables o)
             (isAllTable o) (isDropTable o) (isDumpTable o) (where_ o)
             (writer o) (withoutPrimaryID o).
Definition WithAllDatabases : DumpOption :=
  fun o => mkDumpOption (isData o) (dbs o) true (tables o) (isAllTable o)
             (isDropTable o) (isDumpTable o) (where_ o) (writer o)
             (withoutPrimaryID o).
Definition WithTables (tables_ : list string) : DumpOption :=
  fun o => mkDumpOption (isData o) (dbs o) (isAllDB o) tables_ (isAllTable o)
             (isDropTable o) (isDumpTable o) (where_ o) (writer o)
             (withoutPrimaryID o).
Definition WithAllTable : DumpOption :=
  fun o => mkDumpOption (isData o) (dbs o) (isAllDB o) (tables o) true
             (isDropTable o) (isDumpTable o) (where_ o) (writer o)
             (withoutPrimaryID o).
Definition WithDropTable : DumpOption :=
  fun o => mkDumpOption (isData o) (dbs o) (isAllDB o) (tables o)
             (isAllTable o) true (isDumpTable o) (where_ o) (writer o)
             (withoutPrimaryID o).
Definition WithDumpTable : DumpOption :=
  fun o => mkDumpOption (isData o) (dbs o) (isAllDB o) (tables o)
             (isAllTable o) (isDropTable o) true (where_ o) (writer o)
             (withoutPrimaryID o).
Definition WithWhere (where__ : string) : DumpOption :=
  fun o => mkDumpOption (isData o) (dbs o) (isAllDB o) (tables o)
             (isAllTable o) (isDropTable o) (isDumpTable o) where__ (writer o)
             (withoutPrimaryID o).
Definition WithWriter (writer_ : ioWriter) : DumpOption :=
  fun o => mkDumpOption (isData o) (dbs o) (isAllDB o) (tables o)
             (isAllTable o) (isDropTable o) (isDumpTable o) (where_ o)
             (Some writer_) (withoutPrimaryID o).
Definition WithoutPrimaryID (withoutPrimaryID_ : bool) : DumpOption :=
  fun o => mkDumpOption (isData o) (dbs o) (isAllDB o) (tables o)
             (isAllTable o) (isDropTable o) (isDumpTable o) (where_ o)
             (writer o) withoutPrimaryID_.

(** [var o dumpOption; for _, opt := range opts { opt(&o) }] *)
Definition applyDumpOptions (opts : list DumpOption) : dumpOption :=
  fold_left (fun o opt => opt o) opts
    (mkDumpOption false [] false [] false false false "" None false).

(** What [Dump] does that can be observed, in program order: creating the
    buffer over a destination, an event of the buffer's user (a write, or
    one of the events of [writeTableData]), a flush, a query passed to
    [db.Exec], closing the connection. *)
Inductive dumpEvent : Type :=
| DNewBuf (w : ioWriter) (size : Z)
| DBuf (e : event)
| DFlush
| DExec (query : string)
| DClose.

Section DumpAll.

Variable fmtOther : string -> value -> string.
Variable TrimSpace : string -> string.

(** [GetDBNameFromDNS], defined in another file of the package. *)
Variable GetDBNameFromDNS : string -> res string.

(** [sql.Open("mysql", dns)] *)
Variable sqlOpenDB : string -> res SQLDB.

(** [time.Now()] at the start, and [time.Since(start).String()] at the end. *)
Variable startTime : Time.
Variable costTime : string.

(** The loop [for _, table := range tables]. *)
Fixpoint Dump_tables (db : SQLDB) (hist : list string) (o : dumpOption)
  (tables_ : list string) (tr : list dumpEvent) : list dumpEvent * flow unit :=
  match tables_ with
  | [] => (tr, Continue tt)
  | table :: tables' =>
      let tr :=
        if isDropTable o
        then (tr ++ [DBuf (EWrite ("DROP TABLE IF EXISTS `" ++ table ++ "`;" ++ nl))])%list
        else tr in
      let '(tr, err) :=
        if isDumpTable o
        then let '(es, err) := writeTableStruct db hist table in
             ((tr ++ map DBuf es)%list, err)
        else (tr, None) in
      match err with
      | Some e => (tr, Return (Some e))
      | None =>
          if isData o then
            match writeTableData fmtOther TrimSpace (queryOn db hist) table
                    (where_ o) (withoutPrimaryID o) with
            | (es, Returned (Some e)) => ((tr ++ map DBuf es)%list, Return (Some e))
            | (es, Returned None) =>
                Dump_tables db hist o tables' (tr ++ map DBuf es)%list
            | (es, Panicked msg) => ((tr ++ map DBuf es)%list, Panic msg)
            end
          else Dump_tables db hist o tables' tr
      end
  end.

(** The loop [for _, dbStr := range dbs]. *)
Fixpoint Dump_dbs (db : SQLDB) (hist : list string) (o : dumpOption)
  (dbs_ : list string) (tr : list dumpEvent) : list dumpEvent * flow unit :=
  match dbs_ with
  | [] => (tr, Continue tt)
  | dbStr :: dbs' =>
      let query := "USE `" ++ dbStr ++ "`" in
      let tr := (tr ++ [DExec query])%list in
      match execOn db hist query with
      | Some e => (tr, Return (Some e))
      | None =>
          let hist := (hist ++ [query])%list in
          match (if isAllTable o then getAllTables db hist else Ok (tables o)) with
          | Err e => (tr, Return (Some e))
          | Ok tables_ =>
              let tr := (tr ++ [DBuf (EWrite ("USE `" ++ dbStr ++ "`;" ++ nl))])%list in
              match Dump_tables db hist o tables_ tr with
              | (tr, Continue _) => Dump_dbs db hist o dbs' tr
              | other => other
              end
          end
      end
  end.

(** [Dump] from the point where the options have been applied. *)
Definition Dump_with (dns : string) (o : dumpOption) : list dumpEvent * outcome :=
  match (if (List.length (dbs o) =? 0)%nat
         then match GetDBNameFromDNS dns with
              | Err e => Err e
              | Ok dbName =>
                  Ok (mkDumpOption (isData o) [dbName] (isAllDB o) (tables o)
                        (isAllTable o) (isDropTable o) (isDumpTable o)
                        (where_ o) (writer o) (withoutPrimaryID o))
              end
         else Ok o) with
  | Err e => ([], Returned (Some e))
  | Ok o =>
      let o :=
        if (List.length (tables o) =? 0)%nat
        then mkDumpOption (isData o) (dbs o) (isAllDB o) (tables o) true
               (isDropTable o) (isDumpTable o) (where_ o) (writer o)
               (withoutPrimaryID o)
        else o in
      let w := match writer o with None => osStdout | Some w => w end in
      let tr :=
        [DNewBuf w BufferSize;
         DBuf (EWrite ("-- ----------------------------" ++ nl));
         DBuf (EWrite ("-- MySQL Database Dump" ++ nl));
         DBuf (EWrite ("-- Start Time: " ++ Format startTime "2006-01-02 15:04:05" ++ nl));
         DBuf (EWrite ("-- ----------------------------" ++ nl));
         DBuf (EWrite (nl ++ nl))] in
      match sqlOpenDB dns with
      | Err e => ((tr ++ [DFlush])%list, Returned (Some e))
      | Ok db =>
          let '(tr, fl) :=
            match (if isAllDB o then getDBs db [] else Ok (dbs o)) with
            | Err e => (tr, Return (Some e))
            | Ok dbs_ => Dump_dbs db [] o dbs_ tr
            end in
          match fl with
          | Continue _ =>
              ((tr ++ [DBuf (EWrite ("-- ----------------------------" ++ nl));
                       DBuf (EWrite ("-- Dump completed" ++ nl));
                       DBuf (EWrite ("-- Cost Time: " ++ costTime ++ nl));
                       DBuf (EWrite ("-- ----------------------------" ++ nl));
                       DFlush; DClose; DFlush])%list,
               Returned None)
          | Return e => ((tr ++ [DClose; DFlush])%list, Returned e)
          | Panic msg => ((tr ++ [DClose; DFlush])%list, Panicked msg)
          end
      end
  end.

Definition Dump (dns : string) (opts : list DumpOption) : list dumpEvent * outcome :=
  Dump_with dns (applyDumpOptions opts).

End DumpAll.

(** ** [SafeWriter] (dump.go) *)

Section SafeWriter.

(** [bufio.Writer], by what the code and its properties need of it: the
    free room [Available()], the bytes in the buffer, the bytes handed to
    the destination so far, and the states after [Flush()] and after
    [WriteString(s)]. *)
Variable bufioWriter : Type.
Variable Available : bufioWriter -> nat.
Variable buffered : bufioWriter -> string.
Variable output : bufioWriter -> string.
Variable bufioFlush : bufioWriter -> bufioWriter.
Variable bufioWriteString : bufioWriter -> string -> bufioWriter.

(** The method [WriteString] of [SafeWriter]: the writer after the call. *)
Definition SafeWriter_WriteString (w : bufioWriter) (s : string) : bufioWriter :=
  let l := strings.len s in
  let w := if (Available w <? l)%nat then bufioFlush w else w in
  bufioWriteString w s.

End SafeWriter.

(** * Vocabulary of the properties *)

(** ** Statements and literals *)

(** A statement made of a prefix, the keyword and a value tuple. *)
Definition insertStmt (pt : string * string) : string :=
  fst pt ++ "VALUES" ++ snd pt ++ ";".

(** [tuple] is the value tuple of [stmt]: what stands between the first
    [VALUES] of the statement and its final [;]. *)
Definition valueTuple (stmt tuple : string) : Prop :=
  exists prefix,
    strings.Contains prefix "VALUES" = false
    /\ stmt = prefix ++ "VALUES" ++ tuple ++ ";".

(** Every single quote doubled, nothing else changed. *)
Fixpoint doubleQuotes (s : string) : string :=
  match s with
  | EmptyString => EmptyString
  | String c s' =>
      if Ascii.eqb c "'" then String "'" (String "'" (doubleQuotes s'))
      else String c (doubleQuotes s')
  end.

(** Reading the inside of a string literal up to its closing quote: a
    doubled quote stands for one quote, a single one ends the literal and
    must be the last character. *)
Fixpoint collapseQuotes (body : string) : option string :=
  match body with
  | EmptyString => None
  | String c body' =>
      if Ascii.eqb c "'" then
        match body' with
        | EmptyString => Some EmptyString
        | String d body'' =>
            if Ascii.eqb d "'"
            then option_map (String "'") (collapseQuotes body'')
            else None
        end
      else option_map (String c) (collapseQuotes body')
  end.

(** Parsing an SQL string literal: strip the outer quotes, collapse the
    doubled ones. *)
Definition parseStringLiteral (lit : string) : option string :=
  match lit with
  | EmptyString => None
  | String q body => if Ascii.eqb q "'" then collapseQuotes body else None
  end.

(** A non-NULL raw value whose dynamic type is not the one the branch of a
    temporal column asserts. *)
Definition temporalMismatch (Type_ : string) (col : value) : bool :=
  match col with
  | VNil => false
  | VTime _ => oneOf Type_ ["TIME"; "YEAR"]
  | VBytes _ => oneOf Type_ ["DATE"; "DATETIME"; "TIMESTAMP"]
  | _ => oneOf Type_ ["DATE"; "DATETIME"; "TIMESTAMP"; "TIME"; "YEAR"]
  end.

(** ** Traces and schedules *)

(** A statement sent and never received. *)
Definition leftInChannel (st : state) : list string :=
  match writeCh st with Some data => [data] | None => [] end.

(** The three comment lines that open the records of a table. *)
Definition header (table : string) : list event :=
  [EWrite ("-- ----------------------------" ++ nl);
   EWrite ("-- Records of " ++ table ++ nl);
   EWrite ("-- ----------------------------" ++ nl)].

(** What has been sent and not yet written by the consumer. *)
Definition inFlight (st : state) : list string :=
  (match cons st with CWrite data => [data] | _ => [] end
   ++ match writeCh st with Some data => [data] | None => [] end)%list.

(** The schedule in which the consumer takes and writes every statement
    as soon as it is sent. *)
Definition drainEach (dmls : list string) : list choice :=
  flat_map (fun _ => [Prod; SelectData; Write]) dmls.

(** The schedule in which the consumer keeps up with all statements but
    the last, and then finds both channels ready and takes [done]. *)
Definition overtaking (pre : list string) : list choice :=
  ([Prod; Prod; Prod; Prod] ++ drainEach pre ++ [Prod; Prod; Prod; SelectDone])%list.

(** ** Replays *)

Section ReplayVocabulary.

Variable TrimSpace : string -> string.
Variable dbExec : list string -> string -> option error.

(** What [trim] makes of a line. *)
Definition trimmed (line : string) : string :=
  TrimSpace (strings.TrimLeft line nl).

(** The test the replayer applies to a trimmed statement. *)
Definition isInsert (line : string) : bool :=
  strings.HasPrefix (trimmed line) "INSERT INTO".

(** The error of passing [q] to the wrapper after the queries [log]. *)
Definition execErr (o : sourceOption) (log : list string) (q : string)
  : option error :=
  snd (dbWrapper_Exec dbExec o log q).

(** Every query of [log] was executed without error. *)
Definition accepted (o : sourceOption) (log : list string) : Prop :=
  forall pre q post, log = (pre ++ q :: post)%list -> execErr o pre q = None.

(** [q] is a trimmed statement of the stream, or the merge of a batch of
    them. *)
Definition fromStream (lines : list string) (q : string) : Prop :=
  exists batch,
    batch <> [] /\ incl batch (map trimmed lines)
    /\ (batch = [q] \/ mergeInsert batch = Ok q).

(** The queries passed to the wrapper and the error returned fit together:
    all queries succeeded, or all but the last did and the error returned
    is that of the last. *)
Definition wellLogged (o : sourceOption) (log : list string)
  (result : option error) : Prop :=
  accepted o log
  \/ exists pre q e,
      log = (pre ++ [q])%list /\ accepted o pre
      /\ execErr o pre q = Some e /\ result = Some e.

(** [body] is the stream [lines] as the replayer executes it with merge
    size [N]: statement by statement, each trimmed; but when [N > 1] a
    statement that begins with [INSERT INTO] opens a batch, which takes the
    [k <= N-1] statements after it that begin with [INSERT INTO] too, up
    to the first that does not (which is read and dropped) or to the end of
    the stream, and the batch is executed as its merge. *)
Inductive Replayed (N : Z) : list string -> list string -> Prop :=
| Replayed_end : Replayed N [] []
| Replayed_single (line : string) (ls body : list string) :
    (1 <? N)%Z && isInsert line = false ->
    Replayed N ls body ->
    Replayed N (line :: ls) (trimmed line :: body)
| Replayed_batch (line : string) (ls : list string) (k : nat)
    (merged : string) (after body : list string) :
    (1 <? N)%Z && isInsert line = true ->
    (Z.of_nat k <= N - 1)%Z ->
    Forall (fun l => isInsert l = true) (firstn k ls) ->
    mergeInsert (trimmed line :: map trimmed (firstn k ls)) = Ok merged ->
    (after = skipn k ls /\ (Z.of_nat k = N - 1 \/ after = [])%Z)
    \/ ((Z.of_nat k < N - 1)%Z
        /\ exists l, nth_error ls k = Some l
                     /\ isInsert l = false
                     /\ after = skipn (S k) ls) ->
    Replayed N after body ->
    Replayed N (line :: ls) (merged :: body).

End ReplayVocabulary.

(** ** Sample tables, connections and streams *)

(** A table [t(d DATE)] with one row, whose value the driver hands over as
    raw bytes. *)
Definition dateAsBytes : DB :=
  fun _ => Ok (mkRows (Ok ["d"]) (Ok [mkColumnType "d" "DATE"])
                 [Ok [VBytes "2020-01-01"]]).

(** A table [t(id INT)] with the two rows [1] and [2]. *)
Definition twoRows : DB :=
  fun _ => Ok (mkRows (Ok ["id"]) (Ok [mkColumnType "id" "INT"])
                 [Ok [VBytes "1"]; Ok [VBytes "2"]]).

(** A connection on which everything succeeds. *)
Definition dbNameOk : string -> res string := fun _ => Ok "db".
Definition openOk : string -> option error := fun _ => None.
Definition execOk : list string -> string -> option error := fun _ _ => None.

(** A connection that rejects the statement [bad;]. *)
Definition execRejectsBad : list string -> string -> option error :=
  fun _ q => if String.eqb q "bad;" then Some (errorString "boom") else None.

Definition twoInserts : string :=
  "INSERT INTO `t` VALUES (1,'x');" ++ nl ++ "INSERT INTO `t` VALUES (2,'y');" ++ nl.

Definition badInTheMiddle : string :=
  "INSERT INTO `t` VALUES (1);" ++ nl ++ "bad;" ++ nl
  ++ "INSERT INTO `t` VALUES (2);" ++ nl.

(** A stream that commits by itself half way. *)
Definition commitInTheMiddle : string :=
  "INSERT INTO `t` VALUES (1);" ++ nl ++ "COMMIT;" ++ nl
  ++ "INSERT INTO `t` VALUES (2);" ++ nl.

(** A connection that rejects [COMMIT;]. *)
Definition execRejectsCommit : list string -> string -> option error :=
  fun _ q => if String.eqb q "COMMIT;" then Some (errorString "no commit") else None.

Definition insertDeleteInsert : string :=
  "INSERT INTO `t` VALUES (1);" ++ nl ++ "DELETE FROM `t`;" ++ nl
  ++ "INSERT INTO `t` VALUES (2);" ++ nl.

(** ** More vocabulary for literals *)

(** The raw value is raw bytes. *)
Definition isBytes (col : value) : bool :=
  match col with VBytes _ => true | _ => false end.

(** The text has a single quote in it. *)
Fixpoint hasQuote (s : string) : bool :=
  match s with
  | EmptyString => false
  | String c s' => Ascii.eqb c "'" || hasQuote s'
  end.

(** The place of a character in a text. *)
Fixpoint position (c : ascii) (s : string) : option nat :=
  match s with
  | EmptyString => None
  | String d s' =>
      if Ascii.eqb c d then Some 0 else option_map S (position c s')
  end.

(** The value of an upper-case hexadecimal digit. *)
Definition hexVal (c : ascii) : option nat := position c "0123456789ABCDEF".

(** Reading pairs of hexadecimal digits back into bytes. *)
Fixpoint hexDecode (digits : string) : option string :=
  match digits with
  | EmptyString => Some EmptyString
  | String _ EmptyString => None
  | String hi (String lo digits') =>
      match hexVal hi, hexVal lo, hexDecode digits' with
      | Some h, Some l, Some bs => Some (String (ascii_of_nat (16 * h + l)) bs)
      | _, _, _ => None
      end
  end.

(** Every type name the [switch] has a case for. *)
Definition supportedTypes : list string :=
  (integerFamily ++ ["FLOAT"; "DOUBLE"] ++ ["DECIMAL"; "DEC"]
   ++ ["DATE"; "DATETIME"; "TIMESTAMP"; "TIME"; "YEAR"]
   ++ characterFamily ++ binaryFamily ++ ["ENUM"; "SET"]
   ++ ["BOOL"; "BOOLEAN"] ++ ["JSON"])%list.

(** ** More vocabulary for table dumps *)

(** The literals of the values of a row, when each of them has one. *)
Fixpoint literals (fmtOther : string -> value -> string)
  (withoutPrimaryID : bool) (columnTypes : list ColumnType) (row : list value)
  {struct row} : option (list string) :=
  match row, columnTypes with
  | [], _ => Some []
  | col :: row', columnType :: columnTypes' =>
      match writeTableData_column fmtOther withoutPrimaryID None columnType col "" with
      | Continue lit =>
          option_map (fun lits => lit :: lits)
            (literals fmtOther withoutPrimaryID columnTypes' row')
      | _ => None
      end
  | _ :: _, [] => None
  end.

(** The literals of all the rows fetched, when no [Scan] fails and every
    value has a literal. *)
Fixpoint allLiterals (fmtOther : string -> value -> string)
  (withoutPrimaryID : bool) (columnTypes : list ColumnType)
  (rows : list (res (list value))) : option (list (list string)) :=
  match rows with
  | [] => Some []
  | Err _ :: _ => None
  | Ok row :: rows' =>
      match literals fmtOther withoutPrimaryID columnTypes row,
            allLiterals fmtOther withoutPrimaryID columnTypes rows' with
      | Some lits, Some litss => Some (lits :: litss)
      | _, _ => None
      end
  end.

(** The statement of a row with the literals [lits]. *)
Definition insertStatement (table : string) (lits : list string) : string :=
  "INSERT INTO `" ++ table ++ "` VALUES (" ++ String.concat "," lits ++ ");" ++ nl.

(** A table [t(id INT, g GEOMETRY)] with one row. *)
Definition withGeometry : DB :=
  fun _ => Ok (mkRows (Ok ["id"; "g"])
                 (Ok [mkColumnType "id" "INT"; mkColumnType "g" "GEOMETRY"])
                 [Ok [VBytes "1"; VBytes "x"]]).

(** ** More vocabulary for [Dump] *)

(** An event that is neither the start of a consumer goroutine nor a send
    on one of its channels. *)
Definition withoutRows (ev : dumpEvent) : bool :=
  match ev with
  | DBuf EGo | DBuf (ESend _) | DBuf EDone => false
  | _ => true
  end.

(** A buffered writer over a destination that accepts every write: the
    bytes handed over, the bytes in the buffer, the free room left in the
    buffer. *)
Record simpleWriter : Type := mkSimpleWriter {
  handedOver : string;
  inBuffer : string;
  room : nat
}.

Definition simpleFlush (w : simpleWriter) : simpleWriter :=
  mkSimpleWriter (handedOver w ++ inBuffer w) ""
    (room w + strings.len (inBuffer w)).

(** Writing a text that fits the free room; larger texts go through
    whole. *)
Definition simpleWriteString (w : simpleWriter) (s : string) : simpleWriter :=
  if (strings.len s <=? room w)%nat
  then mkSimpleWriter (handedOver w) (inBuffer w ++ s) (room w - strings.len s)
  else mkSimpleWriter (handedOver w ++ inBuffer w ++ s) ""
         (room w + strings.len (inBuffer w)).

(** What [Dump] does before it opens the connection: the buffer over the
    destination of the options, and the heading. *)
Definition Dump_opening (startTime : Time) (o : dumpOption) : list dumpEvent :=
  [DNewBuf (match writer o with None => osStdout | Some w => w end) BufferSize;
   DBuf (EWrite ("-- ----------------------------" ++ nl));
   DBuf (EWrite ("-- MySQL Database Dump" ++ nl));
   DBuf (EWrite ("-- Start Time: " ++ Format startTime "2006-01-02 15:04:05" ++ nl));
   DBuf (EWrite ("-- ----------------------------" ++ nl));
   DBuf (EWrite (nl ++ nl))].


(** A connection on which [SHOW TABLES] fails. *)
Definition noTablesDB : SQLDB :=
  mkSQLDB (fun _ _ => None)
    (fun _ _ => Err (errorString "no rows"))
    (fun _ _ => Err (errorString "no tables"))
    (fun _ _ => Err (errorString "no table")).

(** A connection with the database [shop] and its tables [a] and [b]. *)
Definition shopDB : SQLDB :=
  mkSQLDB (fun _ _ => None)
    (fun _ _ => Ok (mkRows (Ok ["d"]) (Ok [mkColumnType "d" "DATE"])
                      [Ok [VBytes "2020-01-01"]]))
    (fun _ q => if String.eqb q "SHOW TABLES" then Ok [Ok "a"; Ok "b"]
                else Ok [Ok "shop"])
    (fun _ _ => Ok "CREATE TABLE `a` (`d` date)").

(** * Properties *)

(** ** Slices, prefixes and suffixes *)

Lemma len_app (a b : string) :
  strings.len (a ++ b) = strings.len a + strings.len b.
Proof. induction a as [|c a IH]; simpl; [reflexivity | now rewrite <- IH]. Qed.

Lemma app_empty_r (a : string) : a ++ "" = a.
Proof. induction a as [|c a IH]; simpl; [reflexivity | now rewrite IH]. Qed.

Lemma app_assoc_s (a b c : string) : (a ++ b) ++ c = a ++ b ++ c.
Proof. induction a as [|x a IH]; simpl; [reflexivity | now rewrite IH]. Qed.

Lemma sliceFrom_app (a b : string) : strings.sliceFrom (strings.len a) (a ++ b) = b.
Proof. induction a as [|c a IH]; simpl; [now destruct b | exact IH]. Qed.

Lemma sliceTo_app (a b : string) : strings.sliceTo (strings.len a) (a ++ b) = a.
Proof. induction a as [|c a IH]; simpl; [now destruct b | now rewrite IH]. Qed.

Lemma HasPrefix_app (p t : string) : strings.HasPrefix (p ++ t) p = true.
Proof.
  induction p as [|c p IH]; simpl; [reflexivity|].
  now rewrite Ascii.eqb_refl, IH.
Qed.

Lemma HasPrefix_inv (s p : string) :
  strings.HasPrefix s p = true -> exists t, s = p ++ t.
Proof.
  revert s; induction p as [|c p IH]; intros s H; simpl in *.
  - now exists s.
  - destruct s as [|d s]; [discriminate|].
    apply andb_true_iff in H as [Hc Hp].
    apply Ascii.eqb_eq in Hc; subst d.
    destruct (IH _ Hp) as [t ->]. now exists t.
Qed.

Lemma HasSuffix_app (t suffix : string) : strings.HasSuffix (t ++ suffix) suffix = true.
Proof.
  unfold strings.HasSuffix. rewrite len_app.
  replace (strings.len t + strings.len suffix - strings.len suffix)
    with (strings.len t) by lia.
  rewrite sliceFrom_app, String.eqb_refl, andb_true_r.
  apply Nat.leb_le. lia.
Qed.

Lemma TrimSuffix_app (t suffix : string) : strings.TrimSuffix (t ++ suffix) suffix = t.
Proof.
  unfold strings.TrimSuffix. rewrite HasSuffix_app, len_app.
  replace (strings.len t + strings.len suffix - strings.len suffix)
    with (strings.len t) by lia.
  apply sliceTo_app.
Qed.

Lemma TrimPrefix_app (p t : string) : strings.TrimPrefix (p ++ t) p = t.
Proof.
  unfold strings.TrimPrefix. rewrite HasPrefix_app. apply sliceFrom_app.
Qed.

(** ** [strings.Index] *)

Lemma indexFrom_range (s substr : string) (i : Z) :
  (strings.indexFrom i s substr = -1 \/ i <= strings.indexFrom i s substr)%Z.
Proof.
  revert i; induction s as [|c s IH]; intros i; simpl.
  - destruct (strings.HasPrefix "" substr); lia.
  - destruct (strings.HasPrefix (String c s) substr); [lia|].
    destruct (IH (i + 1)%Z); lia.
Qed.

Lemma Contains_false_Index (s substr : string) :
  strings.Contains s substr = false -> strings.Index s substr = (-1)%Z.
Proof.
  unfold strings.Contains, strings.Index. intros H.
  apply Z.leb_gt in H. destruct (indexFrom_range s substr 0); lia.
Qed.

Lemma indexFrom_none_step (c : ascii) (s substr : string) (i : Z) :
  (0 <= i)%Z ->
  strings.indexFrom i (String c s) substr = (-1)%Z ->
  strings.HasPrefix (String c s) substr = false
  /\ strings.indexFrom (i + 1) s substr = (-1)%Z.
Proof.
  intros Hi H. simpl in H.
  destruct (strings.HasPrefix (String c s) substr); [lia | now split].
Qed.

(** [VALUES] has no proper border: an occurrence cannot start inside a
    text that merely ends where [VALUES] begins. *)
Lemma VALUES_no_overlap (c : ascii) (p t : string) :
  strings.HasPrefix (String c p) "VALUES" = false ->
  strings.HasPrefix (String c p ++ "VALUES" ++ t) "VALUES" = false.
Proof.
  intros H.
  destruct p as [|c2 [|c3 [|c4 [|c5 [|c6 p]]]]]; simpl in *;
    try exact H;
    repeat match goal with
      | |- context [Ascii.eqb ?x ?y] => destruct (Ascii.eqb x y); simpl
      end; reflexivity.
Qed.

Lemma indexFrom_VALUES (p t : string) (i : Z) :
  (0 <= i)%Z ->
  strings.indexFrom i p "VALUES" = (-1)%Z ->
  strings.indexFrom i (p ++ "VALUES" ++ t) "VALUES" = (i + Z.of_nat (strings.len p))%Z.
Proof.
  revert i; induction p as [|c p IH]; intros i Hi H.
  - simpl. lia.
  - destruct (indexFrom_none_step _ _ _ _ Hi H) as [Hp Hrest].
    change (String c p ++ "VALUES" ++ t) with (String c (p ++ "VALUES" ++ t)).
    cbn [strings.indexFrom].
    change (String c (p ++ "VALUES" ++ t)) with (String c p ++ "VALUES" ++ t).
    rewrite (VALUES_no_overlap c p t Hp).
    rewrite IH by (lia || assumption).
    cbn [strings.len String.length]. unfold strings.len. lia.
Qed.

Lemma Index_VALUES (p t : string) :
  strings.Contains p "VALUES" = false ->
  strings.Index (p ++ "VALUES" ++ t) "VALUES" = Z.of_nat (strings.len p).
Proof.
  intros H. apply Contains_false_Index in H.
  unfold strings.Index in *. now rewrite indexFrom_VALUES.
Qed.

(** [Contains] finds every occurrence. *)
Lemma Contains_app (u substr v : string) :
  strings.Contains (u ++ substr ++ v) substr = true.
Proof.
  unfold strings.Contains, strings.Index. apply Z.leb_le.
  generalize 0%Z at 1 2 as i.
  induction u as [|c u IH]; intros i.
  - cbn [append]. destruct (substr ++ v) eqn:E; simpl.
    + destruct substr; [simpl; lia | discriminate].
    + rewrite <- E, HasPrefix_app. lia.
  - cbn [append strings.indexFrom].
    destruct (strings.HasPrefix _ _); [lia|].
    specialize (IH (i + 1)%Z). lia.
Qed.

Lemma HasPrefix_app_l (a b substr : string) :
  strings.HasPrefix a substr = true -> strings.HasPrefix (a ++ b) substr = true.
Proof.
  intros H. apply HasPrefix_inv in H as [t ->].
  rewrite app_assoc_s. apply HasPrefix_app.
Qed.

Lemma indexFrom_none_shift (s substr : string) :
  forall i j : Z,
    (0 <= i)%Z -> (0 <= j)%Z ->
    strings.indexFrom i s substr = (-1)%Z ->
    strings.indexFrom j s substr = (-1)%Z.
Proof.
  induction s as [|c s IH]; intros i j Hi Hj; cbn [strings.indexFrom].
  - destruct (strings.HasPrefix "" substr); [lia | reflexivity].
  - destruct (strings.HasPrefix (String c s) substr); [lia|].
    apply IH; lia.
Qed.

(** A text that contains [VALUES] splits at its first occurrence. *)
Lemma first_VALUES (s : string) :
  strings.Contains s "VALUES" = true ->
  exists p t,
    strings.Contains p "VALUES" = false /\ s = p ++ "VALUES" ++ t.
Proof.
  unfold strings.Contains, strings.Index. intros H. apply Z.leb_le in H.
  assert (G : forall i, (0 <= i)%Z ->
                strings.indexFrom i s "VALUES" <> (-1)%Z ->
                exists p t, strings.indexFrom 0 p "VALUES" = (-1)%Z
                            /\ s = p ++ "VALUES" ++ t).
  { clear H. induction s as [|c s IH]; intros i Hi Hne.
    - now contradiction Hne.
    - cbn [strings.indexFrom] in Hne.
      destruct (strings.HasPrefix (String c s) "VALUES") eqn:Hp.
      + apply HasPrefix_inv in Hp as [t Ht]. exists "", t. split; [reflexivity|].
        exact Ht.
      + destruct (IH (i + 1)%Z ltac:(lia) Hne) as [p [t [Hnone ->]]].
        exists (String c p), t. split; [|reflexivity].
        cbn [strings.indexFrom].
        destruct (strings.HasPrefix (String c p) "VALUES") eqn:Hcp.
        * apply (HasPrefix_app_l _ ("VALUES" ++ t)) in Hcp.
          change (String c p ++ "VALUES" ++ t)
            with (String c (p ++ "VALUES" ++ t)) in Hcp.
          rewrite Hcp in Hp. discriminate.
        * apply (indexFrom_none_shift p "VALUES" 0 (0 + 1)); (lia || assumption). }
  destruct (G 0%Z ltac:(lia) ltac:(lia)) as [p [t [Hnone ->]]].
  exists p, t. split; [|reflexivity]. apply Z.leb_gt. lia.
Qed.

Lemma sliceTo_sliceFrom (n : nat) (s : string) :
  strings.sliceTo n s ++ strings.sliceFrom n s = s.
Proof.
  revert s; induction n as [|n IH]; intros [|c s]; cbn; try reflexivity.
  now rewrite IH.
Qed.

Lemma HasSuffix_inv (s suffix : string) :
  strings.HasSuffix s suffix = true -> exists t, s = t ++ suffix.
Proof.
  unfold strings.HasSuffix. intros H. apply andb_true_iff in H as [_ H].
  apply String.eqb_eq in H.
  exists (strings.sliceTo (strings.len s - strings.len suffix) s).
  pose proof (sliceTo_sliceFrom (strings.len s - strings.len suffix) s) as E.
  rewrite H in E. now symmetry.
Qed.

(** The final character of a text is that of its last non-empty part. *)
Lemma app_ends (a b t : string) (c : ascii) :
  a ++ b = t ++ String c "" -> b <> "" -> exists t', b = t' ++ String c "".
Proof.
  revert t; induction a as [|x a IH]; intros t H Hb.
  - now exists t.
  - destruct t as [|y t]; cbn [append] in H.
    + injection H as _ H. destruct a; [now destruct b | discriminate].
    + injection H as _ H. now apply (IH t).
Qed.

(** A statement that contains [VALUES] and ends with [;] has a value
    tuple. *)
Lemma valueTuple_exists (stmt : string) :
  strings.Contains stmt "VALUES" = true ->
  strings.HasSuffix stmt ";" = true ->
  exists tuple, valueTuple stmt tuple.
Proof.
  intros Hc Hs.
  apply first_VALUES in Hc as [p [t [Hp ->]]].
  apply HasSuffix_inv in Hs as [u Hu].
  destruct t as [|c t].
  - apply (app_ends p "VALUES" u ";") in Hu as [t' Ht']; [|discriminate].
    destruct t' as [|? [|? [|? [|? [|? [|? [|? ?]]]]]]]; discriminate.
  - rewrite <- app_assoc_s in Hu.
    apply (app_ends _ (String c t) u ";") in Hu as [t' ->]; [|discriminate].
    exists t', p. split; [exact Hp | reflexivity].
Qed.

(** ** Merging inserts *)

(** The example of the function's own comment; the tuples keep the blank
    that follows [VALUES] in their statement. *)
Example mergeInsert_doc :
  mergeInsert ["INSERT INTO `test` VALUES (1, 'a');";
               "INSERT INTO `test` VALUES (2, 'b');"]
  = Ok "INSERT INTO `test` VALUES (1, 'a'), (2, 'b');".
Proof. reflexivity. Qed.

(** Every statement after the first is preceded by a comma: the loop index
    never reaches [len(insertSQLs)-1]. *)
Lemma mergeInsert_loop_tuples (others : list (string * string)) :
  forall (n i : Z) (builder : string),
    (i + Z.of_nat (List.length others) < n)%Z ->
    Forall (fun pt => strings.Contains (fst pt) "VALUES" = false) others ->
    mergeInsert_loop n i (map insertStmt others) builder
    = Ok (fold_left (fun acc pt => acc ++ "," ++ snd pt) others builder).
Proof.
  induction others as [|[p t] others IH]; intros n i builder Hi Hall.
  - reflexivity.
  - inversion Hall as [|? ? Hp Hrest]; subst. cbn [fst] in Hp.
    cbn [map mergeInsert_loop fold_left snd].
    change (insertStmt (p, t)) with (p ++ "VALUES" ++ t ++ ";"). cbv zeta.
    rewrite (Index_VALUES p (t ++ ";") Hp).
    cbn [List.length] in Hi.
    replace (i <? n - 1)%Z with true by (symmetry; apply Z.ltb_lt; lia).
    replace (Z.of_nat (strings.len p) =? -1)%Z with false
      by (symmetry; apply Z.eqb_neq; lia).
    rewrite Nat2Z.id, sliceFrom_app.
    rewrite (TrimPrefix_app "VALUES" (t ++ ";")), TrimSuffix_app.
    rewrite IH by (lia || assumption).
    now rewrite app_assoc_s.
Qed.

Lemma fold_left_concat (ts : list string) (builder : string) :
  fold_left (fun acc t => acc ++ "," ++ t) ts builder
  = String.concat "," (builder :: ts).
Proof.
  revert builder; induction ts as [|t ts IH]; intros builder.
  - reflexivity.
  - cbn [fold_left]. rewrite IH. cbn [String.concat].
    destruct ts; [reflexivity | now rewrite app_assoc_s].
Qed.

Lemma fold_left_snd (others : list (string * string)) (builder : string) :
  fold_left (fun acc pt => acc ++ "," ++ snd pt) others builder
  = fold_left (fun acc t => acc ++ "," ++ t) (map snd others) builder.
Proof.
  revert builder; induction others as [|pt others IH]; intros builder;
    [reflexivity | apply IH].
Qed.

(** Merging a first statement [first;] with further statements
    [prefix VALUES tuple;], where [VALUES] does not occur in the prefixes. *)
Lemma mergeInsert_of_tuples (first : string) (others : list (string * string)) :
  Forall (fun pt => strings.Contains (fst pt) "VALUES" = false) others ->
  mergeInsert ((first ++ ";") :: map insertStmt others)
  = Ok (String.concat "," (first :: map snd others) ++ ";").
Proof.
  intros Hall. unfold mergeInsert.
  rewrite TrimSuffix_app.
  rewrite mergeInsert_loop_tuples; [|cbn [List.length]; rewrite length_map; lia|assumption].
  now rewrite fold_left_snd, fold_left_concat.
Qed.

(** Statements that have a value tuple are of the form the lemma above
    treats. *)
Lemma tuples_of_statements (others : list string) :
  Forall (fun s => strings.Contains s "VALUES" = true
                   /\ strings.HasSuffix s ";" = true) others ->
  exists pts,
    others = map insertStmt pts
    /\ Forall (fun pt => strings.Contains (fst pt) "VALUES" = false) pts
    /\ Forall2 valueTuple others (map snd pts).
Proof.
  induction 1 as [|s others [Hc Hs] _ [pts [-> [Hall Htup]]]].
  - exists []. repeat split; constructor.
  - destruct (valueTuple_exists s Hc Hs) as [t [p [Hp ->]]].
    exists ((p, t) :: pts). split; [reflexivity|]. split.
    + now constructor.
    + constructor; [|exact Htup]. now exists p.
Qed.

(** C4. Merging a first statement [first;] with further statements that
    each contain [VALUES] and end with [;] yields the first statement
    without its [;], then the value tuples of the others, all joined by
    commas in the original order, then a final [;]. *)
Theorem mergeInsert_joins_value_tuples :
  forall (first : string) (others : list string),
    Forall (fun s => strings.Contains s "VALUES" = true
                     /\ strings.HasSuffix s ";" = true) others ->
    exists tuples,
      Forall2 valueTuple others tuples
      /\ mergeInsert ((first ++ ";") :: others)
         = Ok (String.concat "," (first :: tuples) ++ ";").
Proof.
  intros first others Hall.
  destruct (tuples_of_statements others Hall) as [pts [-> [Hpts Htup]]].
  exists (map snd pts). split; [exact Htup|].
  now apply mergeInsert_of_tuples.
Qed.

Lemma mergeInsert_joins_value_tuples_witness :
  exists tuples,
    Forall2 valueTuple
      ["INSERT INTO `t` VALUES (2,'y');"; "INSERT INTO `t` VALUES (3,'z');"]
      tuples
    /\ mergeInsert ["INSERT INTO `t` VALUES (1,'x');";
                    "INSERT INTO `t` VALUES (2,'y');";
                    "INSERT INTO `t` VALUES (3,'z');"]
       = Ok (String.concat "," ("INSERT INTO `t` VALUES (1,'x')" :: tuples) ++ ";").
Proof.
  apply (mergeInsert_joins_value_tuples "INSERT INTO `t` VALUES (1,'x')"
           ["INSERT INTO `t` VALUES (2,'y');"; "INSERT INTO `t` VALUES (3,'z');"]).
  repeat constructor.
Defined.

(** The same batch, evaluated. *)
Example mergeInsert_three :
  mergeInsert ["INSERT INTO `t` VALUES (1,'x');";
               "INSERT INTO `t` VALUES (2,'y');";
               "INSERT INTO `t` VALUES (3,'z');"]
  = Ok "INSERT INTO `t` VALUES (1,'x'), (2,'y'), (3,'z');".
Proof. reflexivity. Qed.

(** The value tuple of a statement is unique. *)
Lemma valueTuple_unique (stmt t1 t2 : string) :
  valueTuple stmt t1 -> valueTuple stmt t2 -> t1 = t2.
Proof.
  intros [p1 [H1 E1]] [p2 [H2 E2]].
  assert (Hi : Z.of_nat (strings.len p1) = Z.of_nat (strings.len p2)).
  { rewrite <- (Index_VALUES p1 (t1 ++ ";") H1), <- (Index_VALUES p2 (t2 ++ ";") H2).
    now rewrite <- E1, <- E2. }
  apply Nat2Z.inj in Hi.
  assert (Hs : strings.sliceFrom (strings.len p1) stmt
               = strings.sliceFrom (strings.len p2) stmt) by now rewrite Hi.
  rewrite E1 in Hs at 1. rewrite E2 in Hs at 1.
  rewrite !sliceFrom_app in Hs. injection Hs as Hs.
  assert (Ht : strings.TrimSuffix (t1 ++ ";") ";" = strings.TrimSuffix (t2 ++ ";") ";")
    by now rewrite Hs.
  now rewrite !TrimSuffix_app in Ht.
Qed.

(** A statement of the batch other than the first that lacks [VALUES]
    makes the merge fail. *)
Lemma mergeInsert_loop_missing (rest : list string) :
  forall (n i : Z) (builder bad : string),
    In bad rest ->
    strings.Contains bad "VALUES" = false ->
    mergeInsert_loop n i rest builder
    = Err (errorString "invalid SQL: missing VALUES keyword").
Proof.
  induction rest as [|s rest IH]; intros n i builder bad Hin Hbad.
  - contradiction.
  - cbn [mergeInsert_loop].
    destruct (strings.Index s "VALUES" =? -1)%Z eqn:E; [reflexivity|].
    destruct Hin as [->|Hin].
    + apply Contains_false_Index in Hbad. rewrite Hbad in E. discriminate.
    + now apply IH with (bad := bad).
Qed.

(** C8, as the code has it. An empty batch fails with [no input provided];
    a batch in which a statement other than the first lacks [VALUES] fails
    with [invalid SQL: missing VALUES keyword]. *)
Theorem mergeInsert_rejects :
  mergeInsert [] = Err (errorString "no input provided")
  /\ forall (first : string) (others : list string) (bad : string),
      In bad others ->
      strings.Contains bad "VALUES" = false ->
      mergeInsert (first :: others)
      = Err (errorString "invalid SQL: missing VALUES keyword").
Proof.
  split; [reflexivity|].
  intros first others bad Hin Hbad. unfold mergeInsert.
  now rewrite (mergeInsert_loop_missing others _ _ _ bad Hin Hbad).
Qed.

Lemma mergeInsert_rejects_witness :
  In "INSERT INTO `t` SELECT 1;" ["INSERT INTO `t` SELECT 1;"]
  /\ strings.Contains "INSERT INTO `t` SELECT 1;" "VALUES" = false
  /\ mergeInsert ["INSERT INTO `t` VALUES (1);"; "INSERT INTO `t` SELECT 1;"]
     = Err (errorString "invalid SQL: missing VALUES keyword").
Proof.
  assert (Hin : In "INSERT INTO `t` SELECT 1;" ["INSERT INTO `t` SELECT 1;"])
    by (left; reflexivity).
  assert (Hbad : strings.Contains "INSERT INTO `t` SELECT 1;" "VALUES" = false)
    by reflexivity.
  split; [exact Hin|]. split; [exact Hbad|].
  exact (proj2 mergeInsert_rejects "INSERT INTO `t` VALUES (1);" _ _ Hin Hbad).
Defined.

(** C8, for every statement of the batch, does not hold: the first
    statement is never searched for [VALUES], so a batch whose first
    statement lacks it is merged. *)
Lemma mergeInsert_first_unchecked :
  ~ (forall (stmts : list string) (s : string),
        In s stmts ->
        strings.Contains s "VALUES" = false ->
        exists e, mergeInsert stmts = Err e).
Proof.
  intros H.
  destruct (H ["DELETE FROM `t`;"; "INSERT INTO `t` VALUES (1);"]
              "DELETE FROM `t`;") as [e He].
  - left; reflexivity.
  - reflexivity.
  - vm_compute in He. discriminate.
Qed.

Example first_statement_taken_whole :
  mergeInsert ["DELETE FROM `t`;"; "INSERT INTO `t` VALUES (1);"]
  = Ok "DELETE FROM `t`, (1);".
Proof. reflexivity. Qed.

(** ** The literal encoder *)

Lemma oneOf_In (s : string) (cases : list string) :
  oneOf s cases = true -> In s cases.
Proof.
  unfold oneOf. intros H. apply existsb_exists in H as [x [Hin Heq]].
  apply String.eqb_eq in Heq. now subst.
Qed.

(** Decide the [switch] once the type name is known. *)
Ltac switch_case H :=
  apply oneOf_In in H;
  unfold integerFamily, characterFamily, binaryFamily in H;
  cbn [In] in H;
  repeat (destruct H as [H|H]; [rewrite <- H|]); [..|contradiction];
  lazy beta iota zeta
    delta [oneOf existsb String.eqb Ascii.eqb Bool.eqb orb andb negb
           integerFamily characterFamily binaryFamily];
  try reflexivity.

Lemma ReplaceAll_quote (s : string) :
  strings.ReplaceAll s "'" "''" = doubleQuotes s.
Proof.
  unfold strings.ReplaceAll.
  induction s as [|c s IH]; [reflexivity|].
  cbn [strings.replaceFrom doubleQuotes strings.HasPrefix strings.len String.length Nat.sub].
  rewrite andb_true_r, IH. now destruct (Ascii.eqb c "'").
Qed.

Lemma collapse_doubleQuotes (s : string) :
  collapseQuotes (doubleQuotes s ++ "'") = Some s.
Proof.
  induction s as [|c s IH]; [reflexivity|].
  cbn [doubleQuotes]. destruct (Ascii.eqb c "'") eqn:E.
  - apply Ascii.eqb_eq in E; subst c.
    cbn [append collapseQuotes]. rewrite Ascii.eqb_refl. now rewrite IH.
  - cbn [append collapseQuotes]. rewrite E. now rewrite IH.
Qed.

(** C9. A character-family column whose raw value is the text [s] (as raw
    bytes or as a string) is rendered as [s] between single quotes with
    every single quote of [s] doubled and nothing else changed; parsing
    that literal gives back [s]. *)
Theorem character_literal_round_trip :
  forall (fmtOther : string -> value -> string) (withoutPrimaryID : bool)
         (err : option error) (columnType : ColumnType) (col : value)
         (s dml : string),
    oneOf (canonicalType (DatabaseTypeName columnType)) characterFamily = true ->
    col = VBytes s \/ col = VString s ->
    writeTableData_column fmtOther withoutPrimaryID err columnType col dml
    = Continue (dml ++ "'" ++ doubleQuotes s ++ "'")
    /\ parseStringLiteral ("'" ++ doubleQuotes s ++ "'") = Some s.
Proof.
  intros fmtOther flag err ct col s dml Hty Hcol. split.
  - unfold writeTableData_column.
    assert (Hs : Sprintf_s fmtOther col = s) by (destruct Hcol; now subst).
    assert (Hn : col <> VNil) by (destruct Hcol; subst; discriminate).
    rewrite Hs, ReplaceAll_quote.
    destruct col; try contradiction; switch_case Hty.
  - cbn [append parseStringLiteral]. rewrite Ascii.eqb_refl.
    apply collapse_doubleQuotes.
Qed.

Lemma character_literal_round_trip_witness :
  writeTableData_column (fun _ _ => "") false None
    (mkColumnType "name" "VARCHAR") (VBytes "a's") "("
  = Continue "('a''s'"
  /\ parseStringLiteral "'a''s'" = Some "a's".
Proof.
  exact (character_literal_round_trip (fun _ _ => "") false None
           (mkColumnType "name" "VARCHAR") (VBytes "a's") "a's" "("
           eq_refl (or_introl eq_refl)).
Defined.

(** C10. In a [BOOL] or [BOOLEAN] column a raw value that is neither NULL
    nor a native boolean makes the encoder panic on the unchecked type
    assertion; no error is returned. *)
Theorem bool_column_panics :
  forall (fmtOther : string -> value -> string) (withoutPrimaryID : bool)
         (err : option error) (columnType : ColumnType) (col : value)
         (dml : string),
    oneOf (canonicalType (DatabaseTypeName columnType)) ["BOOL"; "BOOLEAN"] = true ->
    col <> VNil ->
    (forall b, col <> VBool b) ->
    writeTableData_column fmtOther withoutPrimaryID err columnType col dml
    = Panic ("interface conversion: interface {} is " ++ typeName col ++ ", not bool").
Proof.
  intros fmtOther flag err ct col dml Hty Hnil Hbool.
  unfold writeTableData_column.
  destruct col as [| | | | |b|]; try contradiction;
    try (exfalso; now apply (Hbool b));
    switch_case Hty.
Qed.

Lemma bool_column_panics_witness :
  writeTableData_column (fun _ _ => "") false None
    (mkColumnType "active" "BOOLEAN") (VBytes "1") "("
  = Panic "interface conversion: interface {} is []uint8, not bool".
Proof.
  apply (bool_column_panics (fun _ _ => "") false None
           (mkColumnType "active" "BOOLEAN") (VBytes "1") "(").
  - reflexivity.
  - discriminate.
  - intros b; discriminate.
Defined.

(** A native boolean is rendered as the keyword. *)
Example bool_column_true :
  writeTableData_column (fun _ _ => "") false None
    (mkColumnType "active" "BOOL") (VBool true) "(" = Continue "(true".
Proof. reflexivity. Qed.

(** C1. With the flag set, an integer-family column named [id] is zeroed
    when its value arrives as raw bytes, but a native integer is printed
    as it is: the test of the flag sits inside the raw-bytes branch. *)
Theorem integer_id_zeroed_for_bytes_only :
  forall (fmtOther : string -> value -> string) (err : option error)
         (columnType : ColumnType) (n : Z) (dml : string),
    oneOf (canonicalType (DatabaseTypeName columnType)) integerFamily = true ->
    Name columnType = "id" ->
    writeTableData_column fmtOther true err columnType (VBytes (decimal n)) dml
    = Continue (dml ++ "0")
    /\ writeTableData_column fmtOther true err columnType (VInt64 n) dml
       = Continue (dml ++ decimal n).
Proof.
  intros fmtOther err ct n dml Hty Hname.
  unfold writeTableData_column. rewrite Hname.
  split; switch_case Hty.
Qed.

Lemma integer_id_zeroed_for_bytes_only_witness :
  writeTableData_column (fun _ _ => "") true None
    (mkColumnType "id" "INT") (VBytes "5") "(" = Continue "(0"
  /\ writeTableData_column (fun _ _ => "") true None
       (mkColumnType "id" "INT") (VInt64 5) "(" = Continue "(5".
Proof.
  exact (integer_id_zeroed_for_bytes_only (fun _ _ => "") None
           (mkColumnType "id" "INT") 5 "(" eq_refl eq_refl).
Defined.

(** Without the flag, or under another column name, both representations
    of an integer give the same literal. *)
Lemma integer_representations_agree :
  forall (fmtOther : string -> value -> string) (withoutPrimaryID : bool)
         (err : option error) (columnType : ColumnType) (n : Z) (dml : string),
    oneOf (canonicalType (DatabaseTypeName columnType)) integerFamily = true ->
    withoutPrimaryID && String.eqb (Name columnType) "id" = false ->
    writeTableData_column fmtOther withoutPrimaryID err columnType
      (VBytes (decimal n)) dml
    = writeTableData_column fmtOther withoutPrimaryID err columnType
        (VInt64 n) dml.
Proof.
  intros fmtOther flag err ct n dml Hty Hoff.
  unfold writeTableData_column. rewrite Hoff.
  switch_case Hty.
Qed.

(** The third end-to-end scenario, for both representations of the value. *)
Example scenario_zero_primary_key :
  let col name v :=
    writeTableData_column (fun _ _ => "") true None (mkColumnType name "INT") v "" in
  col "id" (VBytes "5") = Continue "0"
  /\ col "id2" (VBytes "5") = Continue "5"
  /\ col "id2" (VInt64 5) = Continue "5"
  /\ col "id" (VInt64 5) = Continue "5".
Proof. repeat split. Qed.

(** ** Failures of a table dump *)

(** The five temporal branches return the variable [err], whatever it
    holds. *)
Lemma temporal_mismatch_returns_err :
  forall (fmtOther : string -> value -> string) (withoutPrimaryID : bool)
         (err : option error) (columnType : ColumnType) (col : value)
         (dml : string),
    temporalMismatch (canonicalType (DatabaseTypeName columnType)) col = true ->
    writeTableData_column fmtOther withoutPrimaryID err columnType col dml
    = Return err.
Proof.
  intros fmtOther flag err ct col dml H.
  unfold writeTableData_column.
  destruct col; cbn [temporalMismatch] in H; try discriminate; switch_case H.
Qed.

(** C2. When the first value of the first row fetched is of a dynamic type
    its temporal column does not expect, [writeTableData] stops without
    having sent a statement or signalled [done], and what it returns is
    [nil]: at that point [err] holds the result of the successful [Scan]. *)
Theorem temporal_mismatch_returns_nil :
  forall (fmtOther : string -> value -> string) (TrimSpace : string -> string)
         (db : DB) (table where_ : string) (withoutPrimaryID : bool)
         (lineRows : Rows) (columns : list string)
         (columnType : ColumnType) (columnTypes : list ColumnType)
         (col : value) (row : list value) (more : list (res (list value))),
    db (selectQuery TrimSpace table where_) = Ok lineRows ->
    Columns lineRows = Ok columns ->
    ColumnTypes lineRows = Ok (columnType :: columnTypes) ->
    fetched lineRows = Ok (col :: row) :: more ->
    temporalMismatch (canonicalType (DatabaseTypeName columnType)) col = true ->
    writeTableData fmtOther TrimSpace db table where_ withoutPrimaryID
    = ((header table ++ [EGo])%list, Returned None).
Proof.
  intros fmtOther TrimSpace db table where_ flag lineRows columns ct cts
         col row more Hq Hc Ht Hf Hm.
  unfold writeTableData. rewrite Hq, Hc, Ht, Hf.
  cbn [writeTableData_rows writeTableData_row].
  replace (Z.to_nat 0) with 0 by reflexivity. cbn [nth_error].
  now rewrite (temporal_mismatch_returns_err _ _ _ _ _ _ Hm).
Qed.

Lemma temporal_mismatch_returns_nil_witness :
  writeTableData (fun _ _ => "") strings.TrimSpaceASCII dateAsBytes "t" "" false
  = ((header "t" ++ [EGo])%list, Returned None).
Proof.
  exact (temporal_mismatch_returns_nil (fun _ _ => "") strings.TrimSpaceASCII
           dateAsBytes "t" "" false _ ["d"] (mkColumnType "d" "DATE") []
           (VBytes "2020-01-01") [] [] eq_refl eq_refl eq_refl eq_refl eq_refl).
Defined.

(** The other failures of the function do return their error. *)
Example unsupported_type_returns_error :
  writeTableData (fun _ _ => "") strings.TrimSpaceASCII
    (fun _ => Ok (mkRows (Ok ["g"]) (Ok [mkColumnType "g" "GEOMETRY"])
                    [Ok [VBytes "x"]])) "t" "" false
  = ((header "t" ++ [EGo])%list,
     Returned (Some (errorString "unsupported type: GEOMETRY"))).
Proof. reflexivity. Qed.

(** The first end-to-end scenario. *)
Example scenario_row :
  writeTableData (fun _ _ => "") strings.TrimSpaceASCII
    (fun _ => Ok (mkRows (Ok ["id"; "name"; "created"])
                    (Ok [mkColumnType "id" "INT"; mkColumnType "name" "VARCHAR";
                         mkColumnType "created" "DATETIME"])
                    [Ok [VBytes "1"; VBytes "a's"; VTime (mkTime 2020 1 1 0 0 0)]]))
    "t" "" false
  = ((header "t"
      ++ [EGo; ESend ("INSERT INTO `t` VALUES (1,'a''s','2020-01-01 00:00:00');" ++ nl);
          EWrite (nl ++ nl); EDone])%list,
     Returned None).
Proof. reflexivity. Qed.

(** ** The streaming row writer *)

Lemma run_app (s1 s2 : list choice) (st : state) :
  run (s1 ++ s2)%list st
  = match run s1 st with Some st' => run s2 st' | None => None end.
Proof.
  revert st; induction s1 as [|c s1 IH]; intros st; cbn [run app].
  - reflexivity.
  - destruct (step c st); [apply IH | reflexivity].
Qed.

Lemma writesOf_app (g : goroutine) (a b : list sinkOp) :
  writesOf g (a ++ b)%list = (writesOf g a ++ writesOf g b)%list.
Proof.
  induction a as [|[[] s|] a IH]; cbn [app writesOf]; destruct g;
    cbn [app]; now rewrite ?IH.
Qed.

Lemma step_keeps_order (c : choice) (st st' : state) :
  step c st = Some st' ->
  (writesOf Consumer (sink st') ++ inFlight st' ++ sends (prog st'))%list
  = (writesOf Consumer (sink st) ++ inFlight st ++ sends (prog st))%list.
Proof.
  destruct st as [p w d k ops].
  unfold step, writeTableData_next, writeViaBuf, inFlight.
  cbn [prog writeCh done cons sink].
  destruct c.
  - destruct p as [|[s| |dml|] p]; try discriminate.
    + intros [= <-]. cbn [prog writeCh done cons sink sends].
      rewrite writesOf_app. cbn [writesOf]. now rewrite app_nil_r.
    + destruct k; try discriminate. intros [= <-]. reflexivity.
    + destruct w; try discriminate. intros [= <-].
      cbn [prog writeCh done cons sink sends].
      rewrite app_nil_r, <- app_assoc. reflexivity.
    + destruct d; try discriminate. intros [= <-]. reflexivity.
  - destruct k; try discriminate. destruct w; try discriminate.
    intros [= <-]. reflexivity.
  - destruct k; try discriminate. destruct d; try discriminate.
    intros [= <-]. cbn [prog writeCh done cons sink].
    rewrite writesOf_app. cbn [writesOf]. now rewrite app_nil_r.
  - destruct k; try discriminate. intros [= <-].
    cbn [prog writeCh done cons sink].
    rewrite writesOf_app. cbn [writesOf]. now rewrite <- !app_assoc.
Qed.

(** Under every schedule the consumer writes a prefix of the statements
    sent, in the order they were sent; the rest is in flight or still to
    be sent. *)
Lemma consumer_writes_in_fetch_order (schedule : list choice) :
  forall (st st' : state),
    run schedule st = Some st' ->
    (writesOf Consumer (sink st') ++ inFlight st' ++ sends (prog st'))%list
    = (writesOf Consumer (sink st) ++ inFlight st ++ sends (prog st))%list.
Proof.
  induction schedule as [|c schedule IH]; intros st st' H; cbn [run] in H.
  - now inversion H.
  - destruct (step c st) as [st1|] eqn:E; [|discriminate].
    rewrite (IH _ _ H). now apply (step_keeps_order c).
Qed.

Lemma sends_app (a b : list event) :
  sends (a ++ b)%list = (sends a ++ sends b)%list.
Proof.
  induction a as [|[] a IH]; cbn [app sends]; now rewrite ?IH.
Qed.

Lemma sends_map_ESend (dmls : list string) : sends (map ESend dmls) = dmls.
Proof. induction dmls as [|d dmls IH]; cbn [map sends]; now rewrite ?IH. Qed.

Lemma writeTableData_rows_trace (fmtOther : string -> value -> string)
  (withoutPrimaryID : bool) (table : string) (columnTypes : list ColumnType)
  (rows : list (res (list value))) :
  forall (tr tr' : list event) (fl : flow unit),
    writeTableData_rows fmtOther withoutPrimaryID table columnTypes rows tr = (tr', fl) ->
    exists dmls, tr' = (tr ++ map ESend dmls)%list.
Proof.
  induction rows as [|[row|e] rows IH]; intros tr tr' fl H;
    cbn [writeTableData_rows] in H.
  - inversion H. exists []. now rewrite app_nil_r.
  - destruct (writeTableData_row _ _ _ _ _ _ _ _) as [dml|e|msg].
    + apply IH in H as [dmls ->]. exists ((dml ++ ");" ++ nl) :: dmls).
      now rewrite <- app_assoc.
    + inversion H. exists []. now rewrite app_nil_r.
    + inversion H. exists []. now rewrite app_nil_r.
  - inversion H. exists []. now rewrite app_nil_r.
Qed.

(** A dump that signals [done] has sent one statement a row, written the
    two closing line feeds itself, and returns [nil]. *)
Lemma writeTableData_trace (fmtOther : string -> value -> string)
  (TrimSpace : string -> string) (db : DB) (table where_ : string)
  (withoutPrimaryID : bool) (tr : list event) (out : outcome) :
  writeTableData fmtOther TrimSpace db table where_ withoutPrimaryID = (tr, out) ->
  In EDone tr ->
  tr = (header table ++ [EGo] ++ map ESend (sends tr) ++ [EWrite (nl ++ nl); EDone])%list
  /\ out = Returned None.
Proof.
  unfold writeTableData. fold (header table).
  assert (Hh : ~ In EDone (header table)).
  { cbn [header In]. intros [H|[H|[H|[]]]]; discriminate. }
  assert (Hstop : forall o, (header table, o) = (tr, out) -> In EDone tr -> False).
  { intros o Heq Hin. apply pair_equal_spec in Heq as [<- _]. contradiction. }
  destruct (db _) as [lineRows|e]; [|intros; exfalso; eauto].
  destruct (Columns lineRows); [|intros; exfalso; eauto].
  destruct (ColumnTypes lineRows) as [cts|]; [|intros; exfalso; eauto].
  destruct (writeTableData_rows _ _ _ _ _ _) as [tr1 fl] eqn:E.
  apply writeTableData_rows_trace in E as [dmls ->].
  assert (Hno : ~ In EDone ((header table ++ [EGo]) ++ map ESend dmls)%list).
  { intros Hin. apply in_app_or in Hin as [Hin|Hin].
    - apply in_app_or in Hin as [Hin|[Hin|[]]]; [contradiction | discriminate].
    - apply in_map_iff in Hin as [x [Hx _]]. discriminate. }
  destruct fl; intros Heq Hin; apply pair_equal_spec in Heq as [<- <-];
    try contradiction.
  split; [|reflexivity].
  rewrite !sends_app, sends_map_ESend.
  cbn [sends header app].
  now rewrite app_nil_r.
Qed.

Lemma run_drainEach (dmls : list string) :
  forall (tail : list event) (d : bool) (ops : list sinkOp),
    run (drainEach dmls) (mkState (map ESend dmls ++ tail) None d CSelect ops)
    = Some (mkState tail None d CSelect (ops ++ map (SWrite Consumer) dmls)).
Proof.
  induction dmls as [|dml dmls IH]; intros tail d ops.
  - cbn. now rewrite app_nil_r.
  - cbn [drainEach flat_map map app run step writeTableData_next writeViaBuf
         prog writeCh done cons sink].
    fold (drainEach dmls). rewrite IH. now rewrite <- app_assoc.
Qed.

Lemma writesOf_map_Consumer (dmls : list string) :
  writesOf Consumer (map (SWrite Consumer) dmls) = dmls.
Proof. induction dmls as [|d dmls IH]; cbn [map writesOf]; now rewrite ?IH. Qed.

(** C3. For every table dump that runs to the [done] signal and has sent
    at least one statement there is a schedule of the two goroutines in
    which the consumer takes [done] while the last statement is still in
    [writeCh]: both goroutines return, the flush is the last call on the
    sink, and the last statement has not been written. *)
Theorem done_can_overtake_last_statement :
  forall (fmtOther : string -> value -> string) (TrimSpace : string -> string)
         (db : DB) (table where_ : string) (withoutPrimaryID : bool)
         (tr : list event) (out : outcome) (pre : list string) (last : string),
    writeTableData fmtOther TrimSpace db table where_ withoutPrimaryID = (tr, out) ->
    In EDone tr ->
    sends tr = (pre ++ [last])%list ->
    exists (st : state),
      run (overtaking pre) (start tr) = Some st
      /\ finished st = true
      /\ writesOf Consumer (sink st) = pre
      /\ writeCh st = Some last
      /\ exists ops, sink st = (ops ++ [SFlush])%list.
Proof.
  intros fmtOther TrimSpace db table where_ flag tr out pre last Hw Hdone Hs.
  destruct (writeTableData_trace _ _ _ _ _ _ _ _ Hw Hdone) as [Htr _].
  rewrite Hs in Htr. rewrite Htr. clear Htr Hs Hw Hdone.
  unfold overtaking, start. rewrite run_app.
  cbn [header app run step writeTableData_next writeViaBuf
         prog writeCh done cons sink].
  rewrite map_app, <- app_assoc, run_app, run_drainEach.
  cbn [map app run step writeTableData_next writeViaBuf
         prog writeCh done cons sink].
  eexists. split; [reflexivity|].
  cbn [finished prog cons sink writeCh].
  repeat split.
  - cbn [writesOf].
    rewrite !writesOf_app, writesOf_map_Consumer. cbn [writesOf app].
    now rewrite !app_nil_r.
  - eexists. rewrite !app_comm_cons. reflexivity.
Qed.

Lemma done_can_overtake_last_statement_witness :
  exists (st : state),
    run (overtaking ["INSERT INTO `t` VALUES (1);" ++ nl])
      (start (fst (writeTableData (fun _ _ => "") strings.TrimSpaceASCII
                     twoRows "t" "" false))) = Some st
    /\ finished st = true
    /\ writesOf Consumer (sink st) = ["INSERT INTO `t` VALUES (1);" ++ nl]
    /\ writeCh st = Some ("INSERT INTO `t` VALUES (2);" ++ nl)
    /\ exists ops, sink st = (ops ++ [SFlush])%list.
Proof.
  apply (done_can_overtake_last_statement (fun _ _ => "") strings.TrimSpaceASCII
           twoRows "t" "" false _ (Returned None)).
  - reflexivity.
  - vm_compute. tauto.
  - reflexivity.
Defined.

(** The same run, evaluated: the second row never reaches the sink. *)
Example overtaking_run :
  option_map sink
    (run (overtaking ["INSERT INTO `t` VALUES (1);" ++ nl])
       (start (fst (writeTableData (fun _ _ => "") strings.TrimSpaceASCII
                      twoRows "t" "" false))))
  = Some [SWrite Producer ("-- ----------------------------" ++ nl);
          SWrite Producer ("-- Records of t" ++ nl);
          SWrite Producer ("-- ----------------------------" ++ nl);
          SWrite Consumer ("INSERT INTO `t` VALUES (1);" ++ nl);
          SWrite Producer (nl ++ nl);
          SFlush].
Proof. reflexivity. Qed.

(** ** The statement replayer *)

Section SourceProperties.

Variable TrimSpace : string -> string.
Variable GetDBNameFromDNS : string -> res string.
Variable sqlOpen : string -> option error.
Variable dbExec : list string -> string -> option error.

Lemma accepted_nil (o : sourceOption) : accepted dbExec o [].
Proof. intros pre q post H. now destruct pre. Qed.

Lemma accepted_snoc (o : sourceOption) (log : list string) (q : string) :
  accepted dbExec o log -> execErr dbExec o log q = None -> accepted dbExec o (log ++ [q])%list.
Proof.
  intros Hacc Hq pre q0 post H.
  destruct (exists_last (l := q0 :: post)) as [post' [x Hx]]; [discriminate|].
  rewrite Hx, app_assoc in H.
  apply app_inj_tail in H as [Hlog <-].
  destruct post' as [|y post'].
  - cbn in Hx. injection Hx as <-. rewrite app_nil_r in Hlog. now subst.
  - cbn in Hx. injection Hx as <- Hx. apply (Hacc pre q0 post'). exact Hlog.
Qed.

Lemma wellLogged_failure (o : sourceOption) (log pre post : list string)
  (result : option error) (q : string) (e : error) :
  wellLogged dbExec o log result ->
  log = (pre ++ q :: post)%list ->
  execErr dbExec o pre q = Some e ->
  post = [] /\ result = Some e.
Proof.
  intros [Hacc | [pre' [q' [e' [Hlog [Hacc [He' Hres]]]]]]] Heq He.
  - rewrite (Hacc _ _ _ Heq) in He. discriminate.
  - destruct (exists_last (l := q :: post)) as [post' [x Hx]]; [discriminate|].
    rewrite Heq, Hx, app_assoc in Hlog.
    apply app_inj_tail in Hlog as [Hpre <-].
    destruct post' as [|y post'].
    + cbn in Hx. injection Hx as <- <-. rewrite app_nil_r in Hpre. subst pre'.
      rewrite He in He'. injection He' as <-. now split.
    + cbn in Hx. injection Hx as <- Hx.
      rewrite (Hacc pre q post' (eq_sym Hpre)) in He. discriminate.
Qed.

Lemma trim_trimmed (line : string) : trim TrimSpace line = Ok (trimmed TrimSpace line).
Proof. reflexivity. Qed.

(** The inner loop takes the longest run of [INSERT INTO] statements among
    the next [count] of the stream; a statement that ends the run early is
    consumed with it. *)
Lemma Source_pull_inv (count : nat) :
  forall (r : Reader) (acc batch : list string) (r' : Reader),
    Source_pull TrimSpace count r acc = Ok (batch, r') ->
    exists k,
      k <= count
      /\ Forall (fun l => isInsert TrimSpace l = true) (firstn k (pending r))
      /\ batch = (acc ++ map (trimmed TrimSpace) (firstn k (pending r)))%list
      /\ ((pending r' = skipn k (pending r) /\ (k = count \/ pending r' = []))
          \/ (k < count
              /\ exists l, nth_error (pending r) k = Some l
                           /\ isInsert TrimSpace l = false
                           /\ pending r' = skipn (S k) (pending r))).
Proof.
  induction count as [|count IH]; intros r acc batch r' H;
    cbn [Source_pull] in H.
  - injection H as <- <-. exists 0. cbn [firstn skipn map].
    rewrite app_nil_r. split; [lia|]. split; [constructor|].
    split; [reflexivity|]. left. auto.
  - unfold ReadString in H. destruct (pending r) as [|l ls] eqn:Hp.
    + destruct (is_EOF (fail r)); [|discriminate].
      injection H as <- <-. exists 0. cbn [firstn skipn map pending].
      rewrite app_nil_r. split; [lia|]. split; [constructor|].
      split; [reflexivity|]. left. auto.
    + rewrite trim_trimmed in H. fold (isInsert TrimSpace l) in H.
      destruct (isInsert TrimSpace l) eqn:Hl.
      * apply IH in H as [k [Hk [Hall [Hbatch Hstop]]]].
        cbn [pending] in *. exists (S k). cbn [firstn skipn map nth_error].
        split; [lia|]. split; [now constructor|]. split.
        { rewrite Hbatch, <- app_assoc. reflexivity. }
        destruct Hstop as [[Hr Hend] | [Hlt Hl']].
        -- left. split; [exact Hr|]. destruct Hend; [left; lia | now right].
        -- right. split; [lia | exact Hl'].
      * injection H as <- <-. exists 0. cbn [firstn skipn map pending nth_error].
        rewrite app_nil_r. split; [lia|]. split; [constructor|].
        split; [reflexivity|]. right. split; [lia|]. exists l. auto.
Qed.

Lemma incl_firstn {A : Type} (k : nat) (l : list A) : incl (firstn k l) l.
Proof.
  revert l; induction k as [|k IH]; intros [|x l]; cbn [firstn];
    try apply incl_nil_l.
  intros y [->|Hy]; [now left | right; now apply IH].
Qed.

Lemma incl_skipn {A : Type} (k : nat) (l : list A) : incl (skipn k l) l.
Proof.
  revert l; induction k as [|k IH]; intros [|x l]; cbn [skipn];
    try apply incl_refl.
  intros y Hy. right. now apply IH.
Qed.

(** One pass through the body of the outer loop, when the statement read
    opens a batch. *)
Lemma Source_iter_merging (o : sourceOption) (r : Reader) (log : list string)
  (line : string) (ls : list string) :
  pending r = line :: ls ->
  (1 <? mergeInsertSize o)%Z && isInsert TrimSpace line = true ->
  Source_iter TrimSpace dbExec o r log
  = match Source_pull TrimSpace (Z.to_nat (mergeInsertSize o - 1))
            (mkReader ls (rest r) (fail r)) [trimmed TrimSpace line] with
    | Err e => (log, Fail e)
    | Ok (insertSQLs, r1) =>
        match mergeInsert insertSQLs with
        | Err e => (log, Fail e)
        | Ok dml =>
            match execErr dbExec o log dml with
            | Some e => ((log ++ [dml])%list, Fail e)
            | None => ((log ++ [dml])%list, Next r1)
            end
        end
    end.
Proof.
  intros Hp Hm. unfold Source_iter, ReadString. rewrite Hp, trim_trimmed.
  fold (isInsert TrimSpace line). rewrite Hm.
  destruct (Source_pull _ _ _ _) as [[sqls r1]|e]; [|reflexivity].
  destruct (mergeInsert sqls) as [dml|e]; reflexivity.
Qed.

(** One pass when the statement read is executed on its own. *)
Lemma Source_iter_single (o : sourceOption) (r : Reader) (log : list string)
  (line : string) (ls : list string) :
  pending r = line :: ls ->
  (1 <? mergeInsertSize o)%Z && isInsert TrimSpace line = false ->
  Source_iter TrimSpace dbExec o r log
  = match execErr dbExec o log (trimmed TrimSpace line) with
    | Some e => ((log ++ [trimmed TrimSpace line])%list, Fail e)
    | None => ((log ++ [trimmed TrimSpace line])%list, Next (mkReader ls (rest r) (fail r)))
    end.
Proof.
  intros Hp Hm. unfold Source_iter, ReadString. rewrite Hp, trim_trimmed.
  fold (isInsert TrimSpace line). rewrite Hm. reflexivity.
Qed.

Lemma fromStream_single (line : string) (ls : list string) :
  fromStream TrimSpace (line :: ls) (trimmed TrimSpace line).
Proof.
  exists [trimmed TrimSpace line]. split; [discriminate|]. split; [|now left].
  intros x [<-|[]]. now left.
Qed.

Lemma fromStream_batch (line : string) (ls : list string) (k : nat) (q : string) :
  mergeInsert ([trimmed TrimSpace line] ++ map (trimmed TrimSpace) (firstn k ls)) = Ok q ->
  fromStream TrimSpace (line :: ls) q.
Proof.
  intros Hq. exists ([trimmed TrimSpace line] ++ map (trimmed TrimSpace) (firstn k ls))%list.
  split; [discriminate|]. split; [|now right].
  cbn [app map]. intros x [<-|Hx]; [now left|].
  right. apply in_map_iff in Hx as [y [<- Hy]].
  apply in_map. now apply (incl_firstn k ls).
Qed.

Lemma fromStream_incl (lines lines' : list string) (q : string) :
  incl lines' lines -> fromStream TrimSpace lines' q -> fromStream TrimSpace lines q.
Proof.
  intros Hincl [batch [Hne [Hb Hq]]]. exists batch.
  split; [exact Hne|]. split; [|exact Hq].
  intros x Hx. apply Hb in Hx. apply in_map_iff in Hx as [y [<- Hy]].
  apply in_map. now apply Hincl.
Qed.

(** What one pass adds to the log. *)
Lemma Source_iter_inv (o : sourceOption) (r : Reader) (log log' : list string)
  (it : iteration) :
  Source_iter TrimSpace dbExec o r log = (log', it) ->
  match it with
  | Break => log' = log
  | Fail e =>
      log' = log
      \/ exists q, log' = (log ++ [q])%list
                   /\ fromStream TrimSpace (pending r) q
                   /\ execErr dbExec o log q = Some e
  | Next r' =>
      exists q, log' = (log ++ [q])%list
                /\ fromStream TrimSpace (pending r) q
                /\ execErr dbExec o log q = None
                /\ incl (pending r') (pending r)
  end.
Proof.
  destruct (pending r) as [|line ls] eqn:Hp.
  - unfold Source_iter, ReadString. rewrite Hp.
    destruct (is_EOF (fail r)); intros H; apply pair_equal_spec in H as [<- <-];
      auto.
  - destruct ((1 <? mergeInsertSize o)%Z && isInsert TrimSpace line) eqn:Hm.
    + rewrite (Source_iter_merging o r log line ls Hp Hm).
      destruct (Source_pull _ _ _ _) as [[sqls r1]|e] eqn:Hs;
        [|intros H; apply pair_equal_spec in H as [<- <-]; now left].
      destruct (mergeInsert sqls) as [dml|e] eqn:Hmerge;
        [|intros H; apply pair_equal_spec in H as [<- <-]; now left].
      apply Source_pull_inv in Hs as [k [_ [_ [Hbatch Hstop]]]].
      cbn [pending] in Hbatch, Hstop. subst sqls.
      apply fromStream_batch in Hmerge.
      assert (Hincl : incl (pending r1) (line :: ls)).
      { intros x Hx. right.
        destruct Hstop as [[Hr _] | [_ [l [_ [_ Hr]]]]]; rewrite Hr in Hx;
          eapply incl_skipn; exact Hx. }
      destruct (execErr dbExec o log dml) eqn:He;
        intros H; apply pair_equal_spec in H as [<- <-].
      * right. exists dml. auto.
      * exists dml. auto.
    + rewrite (Source_iter_single o r log line ls Hp Hm).
      pose proof (fromStream_single line ls) as Hq.
      destruct (execErr dbExec o log (trimmed TrimSpace line)) eqn:He;
        intros H; apply pair_equal_spec in H as [<- <-].
      * right. exists (trimmed TrimSpace line). auto.
      * exists (trimmed TrimSpace line). repeat split; auto.
        cbn [pending]. intros x Hx. now right.
Qed.

(** The outer loop only adds statements of the stream to the log, and
    stops at the first that fails. *)
Lemma Source_loop_inv (o : sourceOption) (r : Reader) (log : list string) :
  accepted dbExec o log ->
  exists body,
    fst (Source_loop TrimSpace dbExec o r log) = (log ++ body)%list
    /\ Forall (fromStream TrimSpace (pending r)) body
    /\ wellLogged dbExec o (fst (Source_loop TrimSpace dbExec o r log))
         (snd (Source_loop TrimSpace dbExec o r log))
    /\ (snd (Source_loop TrimSpace dbExec o r log) = None ->
        accepted dbExec o (fst (Source_loop TrimSpace dbExec o r log))).
Proof.
  apply (Source_loop_elim TrimSpace dbExec
           (fun o r log result =>
              accepted dbExec o log ->
              exists body,
                fst result = (log ++ body)%list
                /\ Forall (fromStream TrimSpace (pending r)) body
                /\ wellLogged dbExec o (fst result) (snd result)
                /\ (snd result = None -> accepted dbExec o (fst result))));
    clear o r log.
  - intros o r log log' Hiter _ Hacc.
    apply Source_iter_inv in Hiter. subst log'.
    exists []. cbn [fst snd]. rewrite app_nil_r. split; [reflexivity|].
    split; [constructor|]. split; [now left | auto].
  - intros o r log log' e Hiter _ Hacc.
    apply Source_iter_inv in Hiter as [-> | [q [-> [Hq He]]]]; cbn [fst snd].
    + exists []. rewrite app_nil_r. split; [reflexivity|].
      split; [constructor|]. split; [now left | discriminate].
    + exists [q]. split; [reflexivity|]. split; [now repeat constructor|].
      split; [|discriminate]. right. exists log, q, e. auto.
  - intros o r log log' r' Hiter IH _ Hacc.
    apply Source_iter_inv in Hiter as [q [-> [Hq [He Hincl]]]].
    destruct (IH (accepted_snoc _ _ _ Hacc He)) as [body [Hb [Hall [Hw Hn]]]].
    exists (q :: body). split; [now rewrite Hb, <- app_assoc|].
    split; [|split; assumption].
    constructor; [exact Hq|].
    eapply Forall_impl; [|exact Hall].
    intros x. now apply fromStream_incl.
Qed.

Lemma dbWrapper_Exec_eq (o : sourceOption) (log : list string) (q : string) :
  dbWrapper_Exec dbExec o log q = ((log ++ [q])%list, execErr dbExec o log q).
Proof. reflexivity. Qed.

(** Expose the next call of the wrapper and split on its error. *)
Ltac exec_step E :=
  rewrite dbWrapper_Exec_eq; cbv beta iota zeta;
  match goal with
  | |- context [match execErr dbExec ?o ?l ?q with _ => _ end] =>
      destruct (execErr dbExec o l q) eqn:E
  end.

(** [Source] keeps the log and the error it returns together. *)
Lemma Source_wellLogged (dns : string) (reader : Reader)
  (opts : list SourceOption) :
  wellLogged dbExec (applyOptions opts)
    (fst (Source TrimSpace GetDBNameFromDNS sqlOpen dbExec dns reader opts))
    (snd (Source TrimSpace GetDBNameFromDNS sqlOpen dbExec dns reader opts)).
Proof.
  unfold Source. cbv zeta. generalize (applyOptions opts) as o. intros o.
  pose proof (accepted_nil o) as H0.
  destruct (GetDBNameFromDNS dns) as [dbName|e]; [|now left].
  destruct (sqlOpen dns); [now left|].
  exec_step E1.
  { right. eexists _, _, _. cbn [fst snd]. eauto. }
  pose proof (accepted_snoc _ _ _ H0 E1) as H1.
  exec_step E2.
  { right. eexists _, _, _. cbn [fst snd]. eauto. }
  pose proof (accepted_snoc _ _ _ H1 E2) as H2.
  destruct (Source_loop_inv o reader _ H2) as [body [_ [_ [Hw Hn]]]].
  destruct (Source_loop TrimSpace dbExec o reader _) as [log1 [e|]];
    cbn [fst snd] in *; [exact Hw|].
  specialize (Hn eq_refl).
  exec_step E3.
  { right. eexists _, _, _. cbn [fst snd]. eauto. }
  pose proof (accepted_snoc _ _ _ Hn E3) as H3.
  exec_step E4.
  { right. eexists _, _, _. cbn [fst snd]. eauto. }
  left. now apply accepted_snoc.
Qed.




(** Where a batch ends is determined by the stream. *)
Lemma batch_end_unique (ls : list string) :
  forall (c k k' : nat) (after after' : list string),
    k <= c -> k' <= c ->
    Forall (fun l => isInsert TrimSpace l = true) (firstn k ls) ->
    Forall (fun l => isInsert TrimSpace l = true) (firstn k' ls) ->
    (after = skipn k ls /\ (k = c \/ after = []))
    \/ (k < c /\ exists l, nth_error ls k = Some l
                          /\ isInsert TrimSpace l = false
                          /\ after = skipn (S k) ls) ->
    (after' = skipn k' ls /\ (k' = c \/ after' = []))
    \/ (k' < c /\ exists l, nth_error ls k' = Some l
                           /\ isInsert TrimSpace l = false
                           /\ after' = skipn (S k') ls) ->
    firstn k ls = firstn k' ls /\ after = after'.
Proof.
  induction ls as [|x ls IH]; intros c k k' after after' Hk Hk' Hall Hall' Hs Hs'.
  - rewrite !firstn_nil. split; [reflexivity|].
    destruct Hs as [[-> _] | [_ [l [Hl _]]]]; [|now destruct k].
    destruct Hs' as [[-> _] | [_ [l [Hl _]]]]; [|now destruct k'].
    now rewrite !skipn_nil.
  - destruct k as [|k], k' as [|k'].
    + split; [reflexivity|].
      destruct Hs as [[-> [<- | H]] | [Hlt [l [Hl [Hins ->]]]]];
        destruct Hs' as [[-> [Hc | H']] | [Hlt' [l' [Hl' [Hins' ->]]]]];
        cbn [skipn] in *; try discriminate; try lia; reflexivity.
    + exfalso. cbn [firstn] in Hall'. inversion Hall' as [|? ? Hx _]; subst.
      destruct Hs as [[-> [<- | H]] | [Hlt [l [Hl [Hins _]]]]];
        cbn [skipn nth_error] in *; try discriminate; try lia.
      injection Hl as <-. rewrite Hx in Hins. discriminate.
    + exfalso. cbn [firstn] in Hall. inversion Hall as [|? ? Hx _]; subst.
      destruct Hs' as [[-> [<- | H]] | [Hlt [l [Hl [Hins _]]]]];
        cbn [skipn nth_error] in *; try discriminate; try lia.
      injection Hl as <-. rewrite Hx in Hins. discriminate.
    + cbn [firstn] in *. inversion Hall; subst. inversion Hall'; subst.
      destruct (IH (c - 1) k k' after after') as [Hf Ha]; try lia; try assumption.
      * destruct Hs as [[-> Hend] | [Hlt Hdrop]]; cbn [skipn nth_error] in *.
        -- left. split; [reflexivity|]. destruct Hend; [left; lia | now right].
        -- right. split; [lia | exact Hdrop].
      * destruct Hs' as [[-> Hend] | [Hlt Hdrop]]; cbn [skipn nth_error] in *.
        -- left. split; [reflexivity|]. destruct Hend; [left; lia | now right].
        -- right. split; [lia | exact Hdrop].
      * split; [now rewrite Hf | exact Ha].
Qed.

(** The stream and the merge size determine what is replayed. *)
Lemma Replayed_functional (N : Z) (lines body : list string) :
  Replayed TrimSpace N lines body ->
  forall body', Replayed TrimSpace N lines body' -> body = body'.
Proof.
  induction 1 as [|line ls body Hm _ IH
                  |line ls k merged after body Hm Hk Hall Hmerge Hstop _ IH];
    intros body' H'.
  - now inversion H'.
  - inversion H' as [|? ? b' Hm' Hb'|? ? ? ? ? b' Hm' _ _ _ _ _]; subst.
    + f_equal. now apply IH.
    + rewrite Hm in Hm'. discriminate.
  - inversion H' as [|? ? b' Hm' Hb'
                     |? ? k' merged' after' b' Hm' Hk' Hall' Hmerge' Hstop' Hb'];
      subst.
    + rewrite Hm in Hm'. discriminate.
    + destruct (batch_end_unique ls (Z.to_nat (N - 1)) k k' after after')
        as [Hf Ha]; try lia; try assumption.
      * destruct Hstop as [[-> Hend] | [Hlt Hdrop]].
        -- left. split; [reflexivity|]. destruct Hend; [left; lia | now right].
        -- right. split; [lia | exact Hdrop].
      * destruct Hstop' as [[-> Hend] | [Hlt Hdrop]].
        -- left. split; [reflexivity|]. destruct Hend; [left; lia | now right].
        -- right. split; [lia | exact Hdrop].
      * subst after'. rewrite Hf, Hmerge' in Hmerge. injection Hmerge as <-.
        f_equal. now apply IH.
Qed.




(** C6. Whenever a query passed to the connection fails, it is the last
    one passed (so neither [COMMIT;] nor [ROLLBACK;] follows it) and its
    error is what [Source] returns. *)
Theorem failed_statement_ends_replay :
  forall (dns : string) (reader : Reader) (opts : list SourceOption)
         (log : list string) (result : option error)
         (pre : list string) (q : string) (post : list string) (e : error),
    Source TrimSpace GetDBNameFromDNS sqlOpen dbExec dns reader opts = (log, result) ->
    log = (pre ++ q :: post)%list ->
    execErr dbExec (applyOptions opts) pre q = Some e ->
    post = [] /\ result = Some e.
Proof.
  intros dns reader opts log result pre q post e HS Hlog He.
  pose proof (Source_wellLogged dns reader opts) as Hw.
  rewrite HS in Hw. cbn [fst snd] in Hw.
  exact (wellLogged_failure _ _ _ _ _ _ _ Hw Hlog He).
Qed.

(** C7. With a batch size [N > 1], a pass of the loop that reads a
    statement beginning with [INSERT INTO] and completes has executed the
    merge of that statement and of the [k <= N-1] statements after it; all
    of these begin with [INSERT INTO]; and the next pass reads on either
    right after them (when [k = N-1] or the stream is exhausted) or one
    statement further, past the statement that did not begin with
    [INSERT INTO], which is in neither the batch nor the rest of the
    stream. *)
Theorem merge_batch_greedy :
  forall (o : sourceOption) (r : Reader) (log log' : list string) (r' : Reader)
         (line : string) (ls : list string),
    pending r = line :: ls ->
    (1 < mergeInsertSize o)%Z ->
    isInsert TrimSpace line = true ->
    Source_iter TrimSpace dbExec o r log = (log', Next r') ->
    exists (k : nat) (merged : string),
      (Z.of_nat k <= mergeInsertSize o - 1)%Z
      /\ Forall (fun l => isInsert TrimSpace l = true) (firstn k ls)
      /\ mergeInsert (trimmed TrimSpace line :: map (trimmed TrimSpace) (firstn k ls)) = Ok merged
      /\ log' = (log ++ [merged])%list
      /\ ((pending r' = skipn k ls
           /\ (Z.of_nat k = mergeInsertSize o - 1 \/ skipn k ls = [])%Z)
          \/ ((Z.of_nat k < mergeInsertSize o - 1)%Z
              /\ exists l, nth_error ls k = Some l
                           /\ isInsert TrimSpace l = false
                           /\ pending r' = skipn (S k) ls)).
Proof.
  intros o r log log' r' line ls Hp HN Hl.
  rewrite (Source_iter_merging o r log line ls Hp)
    by (rewrite Hl; apply andb_true_iff; split; [now apply Z.ltb_lt | reflexivity]).
  destruct (Source_pull _ _ _ _) as [[sqls r1]|e] eqn:Hs; [|discriminate].
  destruct (mergeInsert sqls) as [dml|e] eqn:Hm; [|discriminate].
  destruct (execErr dbExec o log dml); [discriminate|].
  intros H. apply pair_equal_spec in H as [<- H]. injection H as <-.
  apply Source_pull_inv in Hs as [k [Hk [Hall [Hbatch Hstop]]]].
  cbn [pending] in *. subst sqls.
  exists k, dml. split; [lia|]. split; [exact Hall|].
  split; [exact Hm|]. split; [reflexivity|].
  destruct Hstop as [[Hr Hend] | [Hlt Hdrop]].
  - left. split; [exact Hr|]. destruct Hend as [->|Hnil].
    + left. lia.
    + right. now rewrite <- Hr.
  - right. split; [lia | exact Hdrop].
Qed.

End SourceProperties.

(** ** Replays on concrete streams *)



Example commit_in_the_middle_replay :
  Source strings.TrimSpaceASCII dbNameOk openOk execOk "dsn"
    (NewReader commitInTheMiddle) []
  = (["USE db;"; "SET autocommit=0;"; "INSERT INTO `t` VALUES (1);";
      "COMMIT;"; "INSERT INTO `t` VALUES (2);";
      "COMMIT;"; "SET autocommit=1;"], None).
Proof. vm_compute. reflexivity. Qed.

(** A rejected [COMMIT;] is the error of the replay. *)
Example rejected_commit_replay :
  Source strings.TrimSpaceASCII dbNameOk openOk execRejectsCommit "dsn"
    (NewReader twoInserts) []
  = (["USE db;"; "SET autocommit=0;"; "INSERT INTO `t` VALUES (1,'x');";
      "INSERT INTO `t` VALUES (2,'y');"; "COMMIT;"],
     Some (errorString "no commit")).
Proof. vm_compute. reflexivity. Qed.

Lemma failed_statement_ends_replay_witness :
  Source strings.TrimSpaceASCII dbNameOk openOk execRejectsBad "dsn"
    (NewReader badInTheMiddle) []
  = (["USE db;"; "SET autocommit=0;"; "INSERT INTO `t` VALUES (1);"; "bad;"],
     Some (errorString "boom"))
  /\ (@nil string = [] /\ Some (errorString "boom") = Some (errorString "boom")).
Proof.
  assert (H : Source strings.TrimSpaceASCII dbNameOk openOk execRejectsBad "dsn"
                (NewReader badInTheMiddle) []
              = (["USE db;"; "SET autocommit=0;"; "INSERT INTO `t` VALUES (1);"; "bad;"],
                 Some (errorString "boom"))).
  { vm_compute. reflexivity. }
  split; [exact H|].
  apply (failed_statement_ends_replay strings.TrimSpaceASCII dbNameOk openOk
           execRejectsBad "dsn" (NewReader badInTheMiddle) [] _ _
           ["USE db;"; "SET autocommit=0;"; "INSERT INTO `t` VALUES (1);"]
           "bad;" [] (errorString "boom") H).
  - reflexivity.
  - reflexivity.
Defined.

Lemma merge_batch_greedy_witness :
  exists (k : nat) (merged : string),
    (Z.of_nat k <= 3 - 1)%Z
    /\ Forall (fun l => isInsert strings.TrimSpaceASCII l = true)
         (firstn k [nl ++ "DELETE FROM `t`;"; nl ++ "INSERT INTO `t` VALUES (2);"])
    /\ mergeInsert
         (trimmed strings.TrimSpaceASCII "INSERT INTO `t` VALUES (1);"
          :: map (trimmed strings.TrimSpaceASCII)
               (firstn k [nl ++ "DELETE FROM `t`;"; nl ++ "INSERT INTO `t` VALUES (2);"]))
       = Ok merged
    /\ ["SET autocommit=0;"; "INSERT INTO `t` VALUES (1);"]
       = (["SET autocommit=0;"] ++ [merged])%list
    /\ ((pending (mkReader [nl ++ "INSERT INTO `t` VALUES (2);"] nl EOF)
         = skipn k [nl ++ "DELETE FROM `t`;"; nl ++ "INSERT INTO `t` VALUES (2);"]
         /\ (Z.of_nat k = 3 - 1
             \/ skipn k [nl ++ "DELETE FROM `t`;"; nl ++ "INSERT INTO `t` VALUES (2);"]
                = [])%Z)
        \/ ((Z.of_nat k < 3 - 1)%Z
            /\ exists l,
                nth_error [nl ++ "DELETE FROM `t`;"; nl ++ "INSERT INTO `t` VALUES (2);"] k
                = Some l
                /\ isInsert strings.TrimSpaceASCII l = false
                /\ pending (mkReader [nl ++ "INSERT INTO `t` VALUES (2);"] nl EOF)
                   = skipn (S k)
                       [nl ++ "DELETE FROM `t`;"; nl ++ "INSERT INTO `t` VALUES (2);"])).
Proof.
  apply (merge_batch_greedy strings.TrimSpaceASCII execOk
           (applyOptions [WithMergeInsert 3]) (NewReader insertDeleteInsert)
           ["SET autocommit=0;"]).
  - vm_compute. reflexivity.
  - vm_compute. reflexivity.
  - vm_compute. reflexivity.
  - vm_compute. reflexivity.
Defined.

(** The statement that ends a batch early is lost: it is executed neither
    with the batch nor after it. *)
Example statement_after_batch_is_dropped :
  Source strings.TrimSpaceASCII dbNameOk openOk execOk "dsn"
    (NewReader insertDeleteInsert) [WithMergeInsert 3]
  = (["USE db;"; "SET autocommit=0;"; "INSERT INTO `t` VALUES (1);";
      "INSERT INTO `t` VALUES (2);"; "COMMIT;"; "SET autocommit=1;"],
     None).
Proof. vm_compute. reflexivity. Qed.

(** Without merging every statement of the stream is executed. *)
Example statements_without_merging :
  Source strings.TrimSpaceASCII dbNameOk openOk execOk "dsn"
    (NewReader insertDeleteInsert) []
  = (["USE db;"; "SET autocommit=0;"; "INSERT INTO `t` VALUES (1);";
      "DELETE FROM `t`;"; "INSERT INTO `t` VALUES (2);";
      "COMMIT;"; "SET autocommit=1;"],
     None).
Proof. vm_compute. reflexivity. Qed.

(** The second end-to-end scenario: the merged statement keeps the blank
    that follows [VALUES] in the second statement. *)
Example scenario_merge :
  mergeInsert ["INSERT INTO `t` VALUES (1,'x');"; "INSERT INTO `t` VALUES (2,'y');"]
  = Ok "INSERT INTO `t` VALUES (1,'x'), (2,'y');".
Proof. reflexivity. Qed.

(** In a dry run nothing fails and the same queries are logged. *)
Example dry_run :
  Source strings.TrimSpaceASCII dbNameOk openOk execRejectsBad "dsn"
    (NewReader badInTheMiddle) [WithDryRun]
  = (["USE db;"; "SET autocommit=0;"; "INSERT INTO `t` VALUES (1);"; "bad;";
      "INSERT INTO `t` VALUES (2);"; "COMMIT;"; "SET autocommit=1;"],
     None).
Proof. vm_compute. reflexivity. Qed.

(** * Further properties *)

(** ** The literal encoder, case by case *)

(** X1. The flag [withoutPrimaryID] changes the literal of a value only
    when the value is raw bytes in an integer-family column named [id]. *)
Theorem withoutPrimaryID_scope :
  forall (fmtOther : string -> value -> string) (err : option error)
         (columnType : ColumnType) (col : value) (dml : string),
    oneOf (canonicalType (DatabaseTypeName columnType)) integerFamily
    && String.eqb (Name columnType) "id" && isBytes col = false ->
    writeTableData_column fmtOther true err columnType col dml
    = writeTableData_column fmtOther false err columnType col dml.
Proof.
  intros fmtOther err ct col dml H. unfold writeTableData_column.
  destruct col; try reflexivity; cbn [isBytes] in H.
  destruct (oneOf _ integerFamily); [|reflexivity].
  rewrite andb_true_r in H. cbn [andb] in H. now rewrite H.
Qed.

Lemma withoutPrimaryID_scope_witness :
  writeTableData_column (fun _ _ => "") true None
    (mkColumnType "id2" "INT") (VBytes "5") "("
  = writeTableData_column (fun _ _ => "") false None
      (mkColumnType "id2" "INT") (VBytes "5") "(".
Proof.
  exact (withoutPrimaryID_scope (fun _ _ => "") None
           (mkColumnType "id2" "INT") (VBytes "5") "(" eq_refl).
Defined.

Lemma doubleQuotes_len (s : string) :
  strings.len s <= strings.len (doubleQuotes s).
Proof.
  induction s as [|c s IH]; cbn [doubleQuotes strings.len String.length];
    [lia|].
  unfold strings.len in IH.
  destruct (Ascii.eqb c "'"); cbn [String.length]; lia.
Qed.

Lemma doubleQuotes_fixed (s : string) :
  doubleQuotes s = s <-> hasQuote s = false.
Proof.
  induction s as [|c s IH]; cbn [doubleQuotes hasQuote]; [tauto|].
  destruct (Ascii.eqb c "'") eqn:E; cbn [orb].
  - split; [|discriminate]. intros H. injection H as _ H.
    pose proof (doubleQuotes_len s) as Hl.
    apply (f_equal strings.len) in H.
    unfold strings.len in *. cbn [String.length] in H. lia.
  - split.
    + intros H. injection H as H. now apply IH.
    + intros H. f_equal. now apply IH.
Qed.

(** A body the reader accepts is a doubled text followed by the closing
    quote. *)
Lemma collapseQuotes_inv (n : nat) :
  forall (body r : string),
    strings.len body <= n ->
    collapseQuotes body = Some r -> body = doubleQuotes r ++ "'".
Proof.
  induction n as [|n IH]; intros body r Hn H.
  - destruct body; [discriminate | cbn in Hn; lia].
  - destruct body as [|c body]; [discriminate|].
    cbn [collapseQuotes] in H. cbn [strings.len String.length] in Hn.
    destruct (Ascii.eqb c "'") eqn:E.
    + apply Ascii.eqb_eq in E; subst c.
      destruct body as [|d body]; [injection H as <-; reflexivity|].
      destruct (Ascii.eqb d "'") eqn:E'; [|discriminate].
      apply Ascii.eqb_eq in E'; subst d.
      destruct (collapseQuotes body) as [r'|] eqn:Hr; [|discriminate].
      injection H as <-. cbn [doubleQuotes]. rewrite Ascii.eqb_refl.
      cbn [append]. do 2 f_equal. apply IH; [|exact Hr].
      cbn [String.length] in Hn. unfold strings.len. lia.
    + destruct (collapseQuotes body) as [r'|] eqn:Hr; [|discriminate].
      injection H as <-. cbn [doubleQuotes]. rewrite E.
      cbn [append]. f_equal. apply IH; [|exact Hr]. unfold strings.len. lia.
Qed.

Lemma app_inv_tail_s (a b c : string) : a ++ c = b ++ c -> a = b.
Proof.
  revert b; induction a as [|x a IH]; intros [|y b] H; cbn [append] in H.
  - reflexivity.
  - apply (f_equal strings.len) in H. cbn [strings.len String.length] in H.
    pose proof (len_app b c) as L. unfold strings.len in *. lia.
  - apply (f_equal strings.len) in H. cbn [strings.len String.length] in H.
    pose proof (len_app a c) as L. unfold strings.len in *. lia.
  - injection H as -> H. f_equal. now apply IH.
Qed.

(** X2. An [ENUM], [SET] or [JSON] value that is the text [s] is put
    between single quotes as it is; the literal reads back as [s] exactly
    when [s] has no single quote in it. *)
Theorem unescaped_literal_round_trip :
  forall (fmtOther : string -> value -> string) (withoutPrimaryID : bool)
         (err : option error) (columnType : ColumnType) (col : value)
         (s dml : string),
    oneOf (canonicalType (DatabaseTypeName columnType)) ["ENUM"; "SET"; "JSON"] = true ->
    col = VBytes s \/ col = VString s ->
    writeTableData_column fmtOther withoutPrimaryID err columnType col dml
    = Continue (dml ++ "'" ++ s ++ "'")
    /\ (parseStringLiteral ("'" ++ s ++ "'") = Some s <-> hasQuote s = false).
Proof.
  intros fmtOther flag err ct col s dml Hty Hcol. split.
  - unfold writeTableData_column.
    assert (Hs : Sprintf_s fmtOther col = s) by (destruct Hcol; now subst).
    assert (Hn : col <> VNil) by (destruct Hcol; subst; discriminate).
    rewrite Hs. destruct col; try contradiction; switch_case Hty.
  - cbn [append parseStringLiteral]. rewrite Ascii.eqb_refl. split.
    + intros H. apply (collapseQuotes_inv _ _ _ (le_n _)) in H.
      apply app_inv_tail_s in H. now apply doubleQuotes_fixed.
    + intros H. apply doubleQuotes_fixed in H.
      rewrite <- H at 1. apply collapse_doubleQuotes.
Qed.

Lemma unescaped_literal_round_trip_witness :
  writeTableData_column (fun _ _ => "") false None
    (mkColumnType "note" "JSON") (VBytes "it's") "("
  = Continue "('it's'"
  /\ (parseStringLiteral "'it's'" = Some "it's"
      <-> hasQuote "it's" = false).
Proof.
  exact (unescaped_literal_round_trip (fun _ _ => "") false None
           (mkColumnType "note" "JSON") (VBytes "it's")
           "it's" "(" eq_refl (or_introl eq_refl)).
Defined.

Lemma hex_byte (c : ascii) :
  match hexVal (hexDigit (nat_of_ascii c / 16)),
        hexVal (hexDigit (nat_of_ascii c mod 16)) with
  | Some h, Some l => ascii_of_nat (16 * h + l) = c
  | _, _ => False
  end.
Proof.
  destruct c as [[] [] [] [] [] [] [] []]; vm_compute; reflexivity.
Qed.

Lemma hexDecode_hexUpper (bs : string) : hexDecode (hexUpper bs) = Some bs.
Proof.
  induction bs as [|c bs IH]; [reflexivity|].
  cbn [hexUpper hexDecode]. rewrite IH.
  pose proof (hex_byte c) as H.
  destruct (hexVal (hexDigit (nat_of_ascii c / 16))); [|contradiction].
  destruct (hexVal (hexDigit (nat_of_ascii c mod 16))); [|contradiction].
  now rewrite H.
Qed.

Lemma hexUpper_len (bs : string) :
  strings.len (hexUpper bs) = 2 * strings.len bs.
Proof.
  unfold strings.len.
  induction bs as [|c bs IH]; cbn [hexUpper String.length]; lia.
Qed.

(** X3. A binary-family value given as the bytes [bs] is rendered as [0x]
    followed by two upper-case hexadecimal digits a byte, from which the
    bytes read back. *)
Theorem binary_literal_round_trip :
  forall (fmtOther : string -> value -> string) (withoutPrimaryID : bool)
         (err : option error) (columnType : ColumnType) (bs dml : string),
    oneOf (canonicalType (DatabaseTypeName columnType)) binaryFamily = true ->
    writeTableData_column fmtOther withoutPrimaryID err columnType (VBytes bs) dml
    = Continue (dml ++ "0x" ++ hexUpper bs)
    /\ hexDecode (hexUpper bs) = Some bs
    /\ strings.len (hexUpper bs) = 2 * strings.len bs.
Proof.
  intros fmtOther flag err ct bs dml Hty.
  split; [|split; [apply hexDecode_hexUpper | apply hexUpper_len]].
  unfold writeTableData_column. switch_case Hty.
Qed.

Lemma binary_literal_round_trip_witness :
  writeTableData_column (fun _ _ => "") false None
    (mkColumnType "b" "BLOB") (VBytes (String "222" (String "173" ""))) "("
  = Continue "(0xDEAD"
  /\ hexDecode "DEAD" = Some (String "222" (String "173" ""))
  /\ strings.len "DEAD" = 2 * 2.
Proof.
  exact (binary_literal_round_trip (fun _ _ => "") false None
           (mkColumnType "b" "BLOB") (String "222" (String "173" "")) "(" eq_refl).
Defined.

(** ** Type names *)

(** Replacing in a text without an occurrence changes nothing. *)
Lemma replaceFrom_none (s old new : string) :
  strings.indexFrom 0 s old = (-1)%Z -> strings.replaceFrom 0 s old new = s.
Proof.
  induction s as [|c s IH]; intros H; [reflexivity|].
  destruct (indexFrom_none_step c s old 0 ltac:(lia) H) as [Hp Hr].
  cbn [strings.replaceFrom]. rewrite Hp. f_equal. apply IH.
  apply (indexFrom_none_shift s old (0 + 1) 0); (lia || assumption).
Qed.

Lemma ReplaceAll_none (s old new : string) :
  strings.Contains s old = false -> strings.ReplaceAll s old new = s.
Proof.
  intros H. apply Contains_false_Index in H. now apply replaceFrom_none.
Qed.

Lemma canonicalType_plain (T : string) :
  strings.Contains T "UNSIGNED" = false ->
  strings.Contains T " " = false ->
  canonicalType T = T.
Proof.
  intros HU HB. unfold canonicalType. cbv zeta.
  rewrite (ReplaceAll_none T "UNSIGNED" "" HU). now apply ReplaceAll_none.
Qed.

Lemma canonicalType_unsigned (T : string) :
  strings.Contains T "UNSIGNED" = false ->
  strings.Contains T " " = false ->
  canonicalType ("UNSIGNED " ++ T) = T.
Proof.
  intros HU HB. unfold canonicalType. cbv zeta.
  assert (E : strings.ReplaceAll ("UNSIGNED " ++ T) "UNSIGNED" "" = " " ++ T).
  { unfold strings.ReplaceAll.
    cbn [append strings.replaceFrom strings.HasPrefix strings.len String.length
         Nat.sub Ascii.eqb Bool.eqb andb].
    f_equal. apply replaceFrom_none. now apply Contains_false_Index. }
  rewrite E. unfold strings.ReplaceAll.
  cbn [append strings.replaceFrom strings.HasPrefix strings.len String.length
       Nat.sub Ascii.eqb Bool.eqb andb].
  apply replaceFrom_none. now apply Contains_false_Index.
Qed.

(** X4. A column whose type name is [UNSIGNED T] is encoded exactly like a
    column of type [T] (for a [T] without blank and without [UNSIGNED] in
    it, as all the names of the [switch] are). *)
Theorem unsigned_column_like_signed :
  forall (fmtOther : string -> value -> string) (withoutPrimaryID : bool)
         (err : option error) (name T : string) (col : value) (dml : string),
    strings.Contains T "UNSIGNED" = false ->
    strings.Contains T " " = false ->
    writeTableData_column fmtOther withoutPrimaryID err
      (mkColumnType name ("UNSIGNED " ++ T)) col dml
    = writeTableData_column fmtOther withoutPrimaryID err
        (mkColumnType name T) col dml.
Proof.
  intros fmtOther flag err name T col dml HU HB.
  unfold writeTableData_column. cbn [DatabaseTypeName Name].
  now rewrite canonicalType_unsigned, canonicalType_plain.
Qed.

Lemma unsigned_column_like_signed_witness :
  writeTableData_column (fun _ _ => "") false None
    (mkColumnType "n" "UNSIGNED BIGINT") (VBytes "18446744073709551615") "("
  = writeTableData_column (fun _ _ => "") false None
      (mkColumnType "n" "BIGINT") (VBytes "18446744073709551615") "(".
Proof.
  exact (unsigned_column_like_signed (fun _ _ => "") false None "n" "BIGINT"
           (VBytes "18446744073709551615") "(" eq_refl eq_refl).
Defined.

Lemma oneOf_sublist (s : string) (cases all : list string) :
  incl cases all -> oneOf s all = false -> oneOf s cases = false.
Proof.
  unfold oneOf. intros Hincl Hall.
  destruct (existsb (String.eqb s) cases) eqn:E; [|reflexivity].
  apply existsb_exists in E as [x [Hx Heq]].
  assert (Ht : existsb (String.eqb s) all = true)
    by (apply existsb_exists; exists x; auto).
  rewrite Ht in Hall. discriminate.
Qed.

(** X5. A non-NULL value in a column whose canonical type name is none of
    those the [switch] lists makes the function return the error
    [unsupported type: T]. *)
Theorem unsupported_type_error :
  forall (fmtOther : string -> value -> string) (withoutPrimaryID : bool)
         (err : option error) (columnType : ColumnType) (col : value)
         (dml : string),
    oneOf (canonicalType (DatabaseTypeName columnType)) supportedTypes = false ->
    col <> VNil ->
    writeTableData_column fmtOther withoutPrimaryID err columnType col dml
    = Return (Some (errorString
                      ("unsupported type: "
                       ++ canonicalType (DatabaseTypeName columnType)))).
Proof.
  intros fmtOther flag err ct col dml H Hn.
  unfold writeTableData_column. cbv zeta.
  repeat match goal with
    | |- context [oneOf (canonicalType (DatabaseTypeName ct)) ?l] =>
        rewrite (oneOf_sublist _ l supportedTypes)
          by (exact H
              || (intros x Hx; unfold integerFamily, characterFamily, binaryFamily in Hx;
                  cbn [In] in Hx; vm_compute; tauto))
    end.
  destruct col; try contradiction; reflexivity.
Qed.

Lemma unsupported_type_error_witness :
  writeTableData_column (fun _ _ => "") false None
    (mkColumnType "g" "GEOMETRY") (VBytes "x") "("
  = Return (Some (errorString "unsupported type: GEOMETRY")).
Proof.
  apply (unsupported_type_error (fun _ _ => "") false None
           (mkColumnType "g" "GEOMETRY") (VBytes "x") "(").
  - reflexivity.
  - discriminate.
Defined.

(** ** Rows and tables *)

(** The literal of a value does not depend on the text built so far. *)
Lemma column_appends (fmtOther : string -> value -> string)
  (withoutPrimaryID : bool) (err : option error) (columnType : ColumnType)
  (col : value) (lit dml : string) :
  writeTableData_column fmtOther withoutPrimaryID err columnType col "" = Continue lit ->
  writeTableData_column fmtOther withoutPrimaryID err columnType col dml
  = Continue (dml ++ lit).
Proof.
  unfold writeTableData_column. cbv zeta.
  destruct col as [| | | | |[]|];
    repeat match goal with
      | |- context [if ?b then _ else _] => destruct b
      end;
    intros H; try discriminate; injection H as <-; reflexivity.
Qed.

Lemma concat_cons (lit : string) (lits : list string) :
  lits <> [] ->
  String.concat "," (lit :: lits) = lit ++ "," ++ String.concat "," lits.
Proof. destruct lits; [contradiction | reflexivity]. Qed.

(** The loop over the values of a row joins their literals by commas. *)
Lemma writeTableData_row_literals (fmtOther : string -> value -> string)
  (withoutPrimaryID : bool) (row : list value) :
  forall (pre columnTypes : list ColumnType) (lits : list string)
         (n i : Z) (dml : string),
    literals fmtOther withoutPrimaryID columnTypes row = Some lits ->
    Z.of_nat (List.length pre) = i ->
    n = (i + Z.of_nat (List.length row))%Z ->
    writeTableData_row fmtOther withoutPrimaryID None (pre ++ columnTypes)%list
      n i row dml
    = Continue (dml ++ String.concat "," lits).
Proof.
  induction row as [|col row IH]; intros pre cts lits n i dml Hl Hi Hn.
  - cbn [literals] in Hl. injection Hl as <-. cbn [writeTableData_row String.concat].
    now rewrite app_empty_r.
  - destruct cts as [|ct cts]; [discriminate|]. cbn [literals] in Hl.
    destruct (writeTableData_column _ _ _ ct col "") as [lit| |] eqn:Hc;
      try discriminate.
    destruct (literals _ _ cts row) as [lits'|] eqn:Hr; [|discriminate].
    injection Hl as <-.
    cbn [writeTableData_row].
    rewrite <- Hi, Nat2Z.id, nth_error_app2, Nat.sub_diag by lia.
    cbn [nth_error]. rewrite (column_appends _ _ _ _ _ _ dml Hc).
    replace (pre ++ ct :: cts)%list with ((pre ++ [ct]) ++ cts)%list
      by now rewrite <- app_assoc.
    cbn [List.length] in Hn.
    destruct row as [|col' row].
    + cbn [literals] in Hr. injection Hr as <-.
      replace (Z.of_nat (List.length pre) <? n - 1)%Z with false
        by (symmetry; apply Z.ltb_ge; cbn [List.length] in Hn; lia).
      reflexivity.
    + replace (Z.of_nat (List.length pre) <? n - 1)%Z with true
        by (symmetry; apply Z.ltb_lt; cbn [List.length] in Hn; lia).
      rewrite (IH (pre ++ [ct])%list cts lits' n
                 (Z.of_nat (List.length pre) + 1)%Z _ Hr).
      * rewrite concat_cons, !app_assoc_s; [reflexivity|].
        destruct cts as [|ct' cts]; [discriminate|]. cbn [literals] in Hr.
        destruct (writeTableData_column _ _ _ ct' col' ""); try discriminate.
        destruct (literals _ _ cts row); now inversion Hr.
      * rewrite length_app. cbn [List.length] in *. lia.
      * cbn [List.length] in *. lia.
Qed.

Lemma writeTableData_rows_literals (fmtOther : string -> value -> string)
  (withoutPrimaryID : bool) (table : string) (columnTypes : list ColumnType)
  (rows : list (res (list value))) :
  forall (litss : list (list string)) (tr : list event),
    allLiterals fmtOther withoutPrimaryID columnTypes rows = Some litss ->
    writeTableData_rows fmtOther withoutPrimaryID table columnTypes rows tr
    = ((tr ++ map (fun lits => ESend (insertStatement table lits)) litss)%list,
       Continue tt).
Proof.
  induction rows as [|[row|e] rows IH]; intros litss tr H; cbn [allLiterals] in H.
  - injection H as <-. cbn [writeTableData_rows map]. now rewrite app_nil_r.
  - destruct (literals _ _ columnTypes row) as [lits|] eqn:Hl; [|discriminate].
    destruct (allLiterals _ _ columnTypes rows) as [litss'|] eqn:Hr; [|discriminate].
    injection H as <-. cbn [writeTableData_rows].
    rewrite (writeTableData_row_literals _ _ row [] columnTypes lits _ 0 _ Hl eq_refl)
      by lia.
    rewrite (IH litss' _ eq_refl). cbn [map].
    rewrite <- app_assoc. cbn [app]. unfold insertStatement.
    now rewrite !app_assoc_s.
  - discriminate.
Qed.

(** X6. When the query and both column calls succeed, no [Scan] fails and
    every value fetched has a literal, [writeTableData] writes the three
    comment lines, starts the consumer, sends for each row in turn the
    statement [INSERT INTO `table` VALUES (l1,...,lk);] made of the
    literals of its values, writes two line feeds, signals [done] and
    returns [nil]. *)
Theorem dump_of_encodable_rows :
  forall (fmtOther : string -> value -> string) (TrimSpace : string -> string)
         (db : DB) (table where_ : string) (withoutPrimaryID : bool)
         (lineRows : Rows) (columns : list string)
         (columnTypes : list ColumnType) (litss : list (list string)),
    db (selectQuery TrimSpace table where_) = Ok lineRows ->
    Columns lineRows = Ok columns ->
    ColumnTypes lineRows = Ok columnTypes ->
    allLiterals fmtOther withoutPrimaryID columnTypes (fetched lineRows) = Some litss ->
    writeTableData fmtOther TrimSpace db table where_ withoutPrimaryID
    = ((header table ++ [EGo]
        ++ map (fun lits => ESend (insertStatement table lits)) litss
        ++ [EWrite (nl ++ nl); EDone])%list,
       Returned None).
Proof.
  intros fmtOther TrimSpace db table where_ flag lineRows columns cts litss
         Hq Hc Ht Hl.
  unfold writeTableData. rewrite Hq, Hc, Ht.
  rewrite (writeTableData_rows_literals _ _ _ _ _ litss _ Hl).
  fold (header table). now rewrite <- !app_assoc.
Qed.

Lemma dump_of_encodable_rows_witness :
  writeTableData (fun _ _ => "") strings.TrimSpaceASCII twoRows "t" "id > 0" false
  = ((header "t" ++ [EGo]
      ++ map (fun lits => ESend (insertStatement "t" lits)) [["1"]; ["2"]]
      ++ [EWrite (nl ++ nl); EDone])%list,
     Returned None).
Proof.
  exact (dump_of_encodable_rows (fun _ _ => "") strings.TrimSpaceASCII twoRows
           "t" "id > 0" false _ ["id"] [mkColumnType "id" "INT"] [["1"]; ["2"]]
           eq_refl eq_refl eq_refl eq_refl).
Defined.

(** ** The consumer goroutine *)

Lemma step_without_done (c : choice) (st st' : state) :
  step c st = Some st' ->
  ~ In EDone (prog st) -> done st = false ->
  cons st <> CReturned -> ~ In SFlush (sink st) ->
  ~ In EDone (prog st') /\ done st' = false
  /\ cons st' <> CReturned /\ ~ In SFlush (sink st').
Proof.
  destruct st as [p w d k ops].
  unfold step, writeTableData_next, writeViaBuf.
  cbn [prog writeCh done cons sink].
  intros H Hp Hd Hk Hs. subst d.
  assert (Hsnoc : forall g s, ~ In SFlush (ops ++ [SWrite g s])%list).
  { intros g s Hin. apply in_app_or in Hin as [Hin|[Hin|[]]];
      [contradiction | discriminate]. }
  destruct c.
  - destruct p as [|[s| |dml|] p]; try discriminate.
    + injection H as <-. cbn [prog writeCh done cons sink].
      repeat split; auto. intros Hin. apply Hp. now right.
    + destruct k; try discriminate. injection H as <-.
      cbn [prog writeCh done cons sink].
      repeat split; auto; try discriminate. intros Hin. apply Hp. now right.
    + destruct w; try discriminate. injection H as <-.
      cbn [prog writeCh done cons sink].
      repeat split; auto. intros Hin. apply Hp. now right.
    + exfalso. apply Hp. now left.
  - destruct k; try discriminate. destruct w; try discriminate.
    injection H as <-. cbn [prog writeCh done cons sink].
    repeat split; auto. discriminate.
  - destruct k; discriminate.
  - destruct k; try discriminate. injection H as <-.
    cbn [prog writeCh done cons sink]. repeat split; auto. discriminate.
Qed.

Lemma run_without_done (schedule : list choice) :
  forall (st st' : state),
    run schedule st = Some st' ->
    ~ In EDone (prog st) -> done st = false ->
    cons st <> CReturned -> ~ In SFlush (sink st) ->
    cons st' <> CReturned /\ ~ In SFlush (sink st').
Proof.
  induction schedule as [|c schedule IH]; intros st st' H Hp Hd Hk Hs;
    cbn [run] in H.
  - injection H as <-. now split.
  - destruct (step c st) as [st1|] eqn:E; [|discriminate].
    destruct (step_without_done c st st1 E Hp Hd Hk Hs) as [Hp1 [Hd1 [Hk1 Hs1]]].
    now apply (IH st1 st').
Qed.

(** X7. When [writeTableData] ends in any other way than by returning
    [nil] (an error, a panic), it has not sent on [done]; and whenever it
    has not sent on [done], under every schedule the goroutine running
    [writeViaBuf] never returns and never flushes. *)
Theorem early_return_leaves_consumer_blocked :
  forall (fmtOther : string -> value -> string) (TrimSpace : string -> string)
         (db : DB) (table where_ : string) (withoutPrimaryID : bool)
         (tr : list event) (out : outcome),
    writeTableData fmtOther TrimSpace db table where_ withoutPrimaryID = (tr, out) ->
    (out <> Returned None -> ~ In EDone tr)
    /\ (~ In EDone tr ->
        forall (schedule : list choice) (st : state),
          run schedule (start tr) = Some st ->
          cons st <> CReturned /\ ~ In SFlush (sink st)).
Proof.
  intros fmtOther TrimSpace db table where_ flag tr out Hw. split.
  - intros Hout Hin.
    now destruct (writeTableData_trace _ _ _ _ _ _ _ _ Hw Hin) as [_ ->].
  - intros Hno schedule st Hrun.
    apply (run_without_done schedule (start tr) st Hrun); cbn; auto.
    discriminate.
Qed.

Lemma early_return_leaves_consumer_blocked_witness :
  (Returned (Some (errorString "unsupported type: GEOMETRY")) <> Returned None ->
   ~ In EDone (header "t" ++ [EGo])%list)
  /\ (~ In EDone (header "t" ++ [EGo])%list ->
      forall (schedule : list choice) (st : state),
        run schedule (start (header "t" ++ [EGo])%list) = Some st ->
        cons st <> CReturned /\ ~ In SFlush (sink st)).
Proof.
  exact (early_return_leaves_consumer_blocked (fun _ _ => "")
           strings.TrimSpaceASCII withGeometry "t" "" false _ _ eq_refl).
Defined.

(** X8. Whatever the schedule, once [writeTableData] has run to its end
    and the goroutine running [writeViaBuf] has returned, the texts that
    goroutine has received from [writeCh] and passed to
    [writer.WriteString], in the order of its calls, followed by the
    statement left in [writeCh] if there is one, are the statements sent,
    in the order they were sent.  So it has received every statement but
    at most the last, which nothing receives any more. *)
Theorem consumer_receives_all_but_last :
  forall (tr : list event) (schedule : list choice) (st : state),
    run schedule (start tr) = Some st ->
    finished st = true ->
    sends tr = (writesOf Consumer (sink st) ++ leftInChannel st)%list
    /\ List.length (leftInChannel st) <= 1.
Proof.
  intros tr schedule st Hrun Hfin.
  pose proof (consumer_writes_in_fetch_order schedule _ _ Hrun) as H.
  unfold start, inFlight in H. cbn [prog writeCh done cons sink writesOf app] in H.
  unfold finished in Hfin.
  destruct (prog st); [|discriminate].
  destruct (cons st); try discriminate.
  cbn [sends app] in H. rewrite app_nil_r in H.
  split; [now symmetry|].
  unfold leftInChannel. destruct (writeCh st); cbn; lia.
Qed.

Lemma consumer_receives_all_but_last_witness :
  sends (fst (writeTableData (fun _ _ => "") strings.TrimSpaceASCII twoRows
                "t" "" false))
  = ["INSERT INTO `t` VALUES (1);" ++ nl; "INSERT INTO `t` VALUES (2);" ++ nl]
  /\ 1 <= 1.
Proof.
  assert (Hrun : exists st,
             run (overtaking ["INSERT INTO `t` VALUES (1);" ++ nl])
               (start (fst (writeTableData (fun _ _ => "") strings.TrimSpaceASCII
                              twoRows "t" "" false))) = Some st
             /\ finished st = true
             /\ writesOf Consumer (sink st) = ["INSERT INTO `t` VALUES (1);" ++ nl]
             /\ leftInChannel st = ["INSERT INTO `t` VALUES (2);" ++ nl]).
  { eexists. split; [vm_compute; reflexivity|]. repeat split; reflexivity. }
  destruct Hrun as [st [Hrun [Hfin [Hw Hl]]]].
  pose proof (consumer_receives_all_but_last _ _ st Hrun Hfin) as H.
  rewrite Hw, Hl in H. exact H.
Defined.

(** ** Merging inserts, further *)

Lemma mergeInsert_loop_ok (rest : list string) :
  forall (n i : Z) (builder : string),
    Forall (fun s => strings.Contains s "VALUES" = true) rest ->
    exists q, mergeInsert_loop n i rest builder = Ok q.
Proof.
  induction rest as [|s rest IH]; intros n i builder Hall.
  - now exists builder.
  - inversion Hall as [|? ? Hs Hrest]; subst.
    cbn [mergeInsert_loop]. cbv zeta.
    unfold strings.Contains in Hs. apply Z.leb_le in Hs.
    replace (strings.Index s "VALUES" =? -1)%Z with false
      by (symmetry; apply Z.eqb_neq; lia).
    now apply IH.
Qed.

(** X9. A non-empty batch is merged without error exactly when every
    statement after the first contains [VALUES]. *)
Theorem mergeInsert_succeeds_iff :
  forall (first : string) (others : list string),
    (exists q, mergeInsert (first :: others) = Ok q)
    <-> Forall (fun s => strings.Contains s "VALUES" = true) others.
Proof.
  intros first others. split.
  - intros [q Hq]. apply Forall_forall. intros s Hin.
    destruct (strings.Contains s "VALUES") eqn:E; [reflexivity|].
    unfold mergeInsert in Hq.
    rewrite (mergeInsert_loop_missing others _ _ _ s Hin E) in Hq.
    discriminate.
  - intros Hall. unfold mergeInsert.
    destruct (mergeInsert_loop_ok others (Z.of_nat (List.length (first :: others)))
                0 (strings.TrimSuffix first ";") Hall) as [q ->].
    now exists (q ++ ";").
Qed.

(** X10. What a batch is merged into depends on the statements after the
    first only through their value tuples: what precedes [VALUES] in them
    (the table, the column list) is dropped unread. *)
Theorem mergeInsert_ignores_prefixes :
  forall (first : string) (others others' : list (string * string)),
    Forall (fun pt => strings.Contains (fst pt) "VALUES" = false) others ->
    Forall (fun pt => strings.Contains (fst pt) "VALUES" = false) others' ->
    map snd others = map snd others' ->
    mergeInsert ((first ++ ";") :: map insertStmt others)
    = mergeInsert ((first ++ ";") :: map insertStmt others').
Proof.
  intros first others others' H H' Heq.
  rewrite !mergeInsert_of_tuples by assumption. now rewrite Heq.
Qed.

Lemma mergeInsert_ignores_prefixes_witness :
  mergeInsert ["INSERT INTO `a` VALUES (1);"; "INSERT INTO `a` VALUES (2);"]
  = mergeInsert ["INSERT INTO `a` VALUES (1);"; "INSERT INTO `b` (`x`) VALUES (2);"].
Proof.
  apply (mergeInsert_ignores_prefixes "INSERT INTO `a` VALUES (1)"
           [("INSERT INTO `a` ", " (2)")] [("INSERT INTO `b` (`x`) ", " (2)")]).
  - repeat constructor.
  - repeat constructor.
  - reflexivity.
Defined.

(** ** Replays, further *)

Section MoreSourceProperties.

Variable TrimSpace : string -> string.
Variable GetDBNameFromDNS : string -> res string.
Variable sqlOpen : string -> option error.

Lemma Source_loop_step (dbExec : list string -> string -> option error)
  (o : sourceOption) (r : Reader) (log : list string) :
  Source_loop TrimSpace dbExec o r log
  = match Source_iter TrimSpace dbExec o r log with
    | (log', Break) => (log', None)
    | (log', Fail e) => (log', Some e)
    | (log', Next r') => Source_loop TrimSpace dbExec o r' log'
    end.
Proof.
  revert o r log.
  apply (Source_loop_elim TrimSpace dbExec
           (fun o r log result =>
              result = match Source_iter TrimSpace dbExec o r log with
                       | (log', Break) => (log', None)
                       | (log', Fail e) => (log', Some e)
                       | (log', Next r') => Source_loop TrimSpace dbExec o r' log'
                       end));
    intros; match goal with Hi : Source_iter _ _ _ _ _ = _ |- _ => now rewrite Hi end.
Qed.

(** In a dry run one pass does what it does on a connection that accepts
    every query. *)
Lemma Source_iter_dry (dbExec : list string -> string -> option error)
  (o o' : sourceOption) (r : Reader) (log : list string) :
  dryRun o = true ->
  dryRun o' = false ->
  mergeInsertSize o = mergeInsertSize o' ->
  Source_iter TrimSpace dbExec o r log
  = Source_iter TrimSpace (fun _ _ => None) o' r log.
Proof.
  intros Hd Hd' Hm. unfold Source_iter, dbWrapper_Exec. now rewrite Hd, Hd', Hm.
Qed.

Lemma Source_loop_dry (dbExec : list string -> string -> option error)
  (o' : sourceOption) :
  forall (o : sourceOption) (r : Reader) (log : list string),
    dryRun o = true ->
    dryRun o' = false ->
    mergeInsertSize o = mergeInsertSize o' ->
    Source_loop TrimSpace dbExec o r log
    = Source_loop TrimSpace (fun _ _ => None) o' r log.
Proof.
  apply (Source_loop_elim TrimSpace dbExec
           (fun o r log result =>
              dryRun o = true -> dryRun o' = false ->
              mergeInsertSize o = mergeInsertSize o' ->
              result = Source_loop TrimSpace (fun _ _ => None) o' r log)).
  - intros o r log log' Hiter _ Hd Hd' Hm.
    rewrite Source_loop_step, <- (Source_iter_dry dbExec o o') by assumption.
    now rewrite Hiter.
  - intros o r log log' e Hiter _ Hd Hd' Hm.
    rewrite Source_loop_step, <- (Source_iter_dry dbExec o o') by assumption.
    now rewrite Hiter.
  - intros o r log log' r' Hiter IH _ Hd Hd' Hm.
    rewrite (Source_loop_step (fun _ _ => None) o' r),
      <- (Source_iter_dry dbExec o o') by assumption.
    rewrite Hiter. now apply IH.
Qed.

Lemma applyOptions_snoc (opts : list SourceOption) (opt : SourceOption) :
  applyOptions (opts ++ [opt]) = opt (applyOptions opts).
Proof. unfold applyOptions. now rewrite fold_left_app. Qed.

(** X11. A replay with the dry-run option, on any connection, passes to
    the wrapper exactly the queries, and returns exactly the result, of
    the replay without that option on a connection that accepts every
    query; provided the options given do not already ask for a dry run. *)
Theorem dry_run_predicts_successful_run :
  forall (dbExec : list string -> string -> option error) (dns : string)
         (reader : Reader) (opts : list SourceOption),
    dryRun (applyOptions opts) = false ->
    Source TrimSpace GetDBNameFromDNS sqlOpen dbExec dns reader
      (opts ++ [WithDryRun])
    = Source TrimSpace GetDBNameFromDNS sqlOpen (fun _ _ => None) dns reader opts.
Proof.
  intros dbExec dns reader opts Hd. unfold Source. cbv zeta.
  rewrite applyOptions_snoc.
  set (o' := applyOptions opts) in *. set (o := WithDryRun o').
  assert (Ho : dryRun o = true) by reflexivity.
  assert (Hm : mergeInsertSize o = mergeInsertSize o') by reflexivity.
  destruct (GetDBNameFromDNS dns); [|reflexivity].
  destruct (sqlOpen dns); [reflexivity|].
  unfold dbWrapper_Exec. rewrite Ho, Hd.
  rewrite (Source_loop_dry dbExec o' o) by assumption.
  reflexivity.
Qed.

(** Without merging, the loop that ends by [break] has executed every
    delimited statement of the stream, trimmed, in order. *)
Lemma Source_loop_without_merging
  (dbExec : list string -> string -> option error) :
  forall (o : sourceOption) (r : Reader) (log : list string),
    (mergeInsertSize o <= 1)%Z ->
    snd (Source_loop TrimSpace dbExec o r log) = None ->
    fst (Source_loop TrimSpace dbExec o r log)
    = (log ++ map (trimmed TrimSpace) (pending r))%list
    /\ fail r = EOF.
Proof.
  apply (Source_loop_elim TrimSpace dbExec
           (fun o r log result =>
              (mergeInsertSize o <= 1)%Z ->
              snd result = None ->
              fst result = (log ++ map (trimmed TrimSpace) (pending r))%list
              /\ fail r = EOF)).
  - intros o r log log' Hiter _ HN _. cbn [fst].
    unfold Source_iter, ReadString in Hiter.
    destruct (pending r) as [|line ls].
    + destruct (fail r); cbn [is_EOF] in Hiter; [|discriminate].
      apply pair_equal_spec in Hiter as [<- _]. cbn [map].
      now rewrite app_nil_r.
    + exfalso. rewrite trim_trimmed in Hiter.
      replace (1 <? mergeInsertSize o)%Z with false in Hiter
        by (symmetry; apply Z.ltb_ge; lia).
      cbn [andb] in Hiter. unfold dbWrapper_Exec in Hiter.
      destruct (if dryRun o then None else dbExec log _); discriminate.
  - intros o r log log' e _ _ _ H. discriminate.
  - intros o r log log' r' Hiter IH _ HN Hres.
    destruct (IH HN Hres) as [Hlog Hfail].
    unfold Source_iter, ReadString in Hiter.
    destruct (pending r) as [|line ls].
    + destruct (is_EOF (fail r)); discriminate.
    + rewrite trim_trimmed in Hiter.
      replace (1 <? mergeInsertSize o)%Z with false in Hiter
        by (symmetry; apply Z.ltb_ge; lia).
      cbn [andb] in Hiter. unfold dbWrapper_Exec in Hiter.
      destruct (if dryRun o then None else dbExec log _); [discriminate|].
      apply pair_equal_spec in Hiter as [<- Hr]. injection Hr as <-.
      cbn [pending fail] in Hlog, Hfail. split; [|exact Hfail].
      rewrite Hlog, <- app_assoc. reflexivity.
Qed.

(** Without merging, the queries a replay that returns [nil] has passed to
    the wrapper. *)
Lemma Source_without_merging_log :
  forall (dbExec : list string -> string -> option error) (dns : string)
         (reader : Reader) (opts : list SourceOption) (log : list string),
    (mergeInsertSize (applyOptions opts) <= 1)%Z ->
    Source TrimSpace GetDBNameFromDNS sqlOpen dbExec dns reader opts = (log, None) ->
    exists dbName,
      GetDBNameFromDNS dns = Ok dbName
      /\ log = ("USE " ++ dbName ++ ";") :: "SET autocommit=0;"
                :: (map (trimmed TrimSpace) (pending reader)
                    ++ ["COMMIT;"; "SET autocommit=1;"])%list
      /\ fail reader = EOF.
Proof.
  intros dbExec dns reader opts log HN. unfold Source. cbv zeta.
  generalize dependent (applyOptions opts). intros o HN.
  destruct (GetDBNameFromDNS dns) as [dbName|e]; [|discriminate].
  destruct (sqlOpen dns); [discriminate|].
  unfold dbWrapper_Exec.
  destruct (if dryRun o then None else dbExec [] _); [discriminate|].
  destruct (if dryRun o then None else dbExec _ "SET autocommit=0;");
    [discriminate|].
  match goal with
  | |- context [Source_loop _ _ _ _ ?l] =>
      pose proof (Source_loop_without_merging dbExec o reader l HN) as Hloop
  end.
  destruct (Source_loop TrimSpace dbExec o reader _) as [log1 [e|]];
    [discriminate|].
  destruct (Hloop eq_refl) as [Hlog Hfail]. cbn [fst] in Hlog. subst log1.
  destruct (if dryRun o then None else dbExec _ "COMMIT;"); [discriminate|].
  destruct (if dryRun o then None else dbExec _ "SET autocommit=1;");
    [discriminate|].
  intros H. apply pair_equal_spec in H as [<- _].
  exists dbName. split; [reflexivity|]. split; [|exact Hfail].
  cbn [app]. now rewrite <- !app_assoc.
Qed.

(** X12. With a batch size of at most 1 (no merging) and no dry run, a
    replay that returns [nil] has had the connection execute without
    error, in this order and nothing besides: [USE db;],
    [SET autocommit=0;], every delimited statement of the stream exactly
    once, trimmed, [COMMIT;], [SET autocommit=1;]; the text after the last
    [;] is not executed, and the stream ended on [io.EOF]. *)
Theorem replay_without_merging :
  forall (dbExec : list string -> string -> option error) (dns : string)
         (reader : Reader) (opts : list SourceOption) (log : list string),
    dryRun (applyOptions opts) = false ->
    (mergeInsertSize (applyOptions opts) <= 1)%Z ->
    Source TrimSpace GetDBNameFromDNS sqlOpen dbExec dns reader opts = (log, None) ->
    exists dbName,
      GetDBNameFromDNS dns = Ok dbName
      /\ log = ("USE " ++ dbName ++ ";") :: "SET autocommit=0;"
                :: (map (trimmed TrimSpace) (pending reader)
                    ++ ["COMMIT;"; "SET autocommit=1;"])%list
      /\ fail reader = EOF
      /\ forall pre q post,
           log = (pre ++ q :: post)%list -> dbExec pre q = None.
Proof.
  intros dbExec dns reader opts log Hdry HN HS.
  destruct (Source_without_merging_log dbExec dns reader opts log HN HS)
    as [dbName [Hdb [Hlog Hfail]]].
  exists dbName. split; [exact Hdb|]. split; [exact Hlog|]. split; [exact Hfail|].
  intros pre q post Hsplit.
  pose proof (Source_wellLogged TrimSpace GetDBNameFromDNS sqlOpen dbExec
                dns reader opts) as Hw.
  rewrite HS in Hw. cbn [fst snd] in Hw.
  destruct Hw as [Hacc | [pre0 [q0 [e [_ [_ [_ Hres]]]]]]]; [|discriminate].
  specialize (Hacc pre q post Hsplit).
  unfold execErr, dbWrapper_Exec in Hacc. cbn [snd] in Hacc.
  now rewrite Hdry in Hacc.
Qed.

End MoreSourceProperties.

Lemma dry_run_predicts_successful_run_witness :
  Source strings.TrimSpaceASCII dbNameOk openOk execRejectsBad "dsn"
    (NewReader badInTheMiddle) ([WithMergeInsert 2] ++ [WithDryRun])
  = Source strings.TrimSpaceASCII dbNameOk openOk (fun _ _ => None) "dsn"
      (NewReader badInTheMiddle) [WithMergeInsert 2].
Proof.
  exact (dry_run_predicts_successful_run strings.TrimSpaceASCII dbNameOk openOk
           execRejectsBad "dsn" (NewReader badInTheMiddle) [WithMergeInsert 2]
           eq_refl).
Defined.

Lemma replay_without_merging_witness :
  exists dbName,
    dbNameOk "dsn" = Ok dbName
    /\ ["USE db;"; "SET autocommit=0;"; "INSERT INTO `t` VALUES (1);";
        "DELETE FROM `t`;"; "INSERT INTO `t` VALUES (2);";
        "COMMIT;"; "SET autocommit=1;"]
       = ("USE " ++ dbName ++ ";") :: "SET autocommit=0;"
           :: (map (trimmed strings.TrimSpaceASCII)
                 (pending (NewReader insertDeleteInsert))
               ++ ["COMMIT;"; "SET autocommit=1;"])%list
    /\ fail (NewReader insertDeleteInsert) = EOF
    /\ forall pre q post,
         ["USE db;"; "SET autocommit=0;"; "INSERT INTO `t` VALUES (1);";
          "DELETE FROM `t`;"; "INSERT INTO `t` VALUES (2);";
          "COMMIT;"; "SET autocommit=1;"] = (pre ++ q :: post)%list ->
         execRejectsBad pre q = None.
Proof.
  apply (replay_without_merging strings.TrimSpaceASCII dbNameOk openOk
           execRejectsBad "dsn" (NewReader insertDeleteInsert) []).
  - reflexivity.
  - vm_compute. discriminate.
  - vm_compute. reflexivity.
Defined.

(** ** Table structure and lists of names *)

Lemma replaceUpTo_done (s old new : string) : replaceUpTo 0 0 s old new = s.
Proof. now destruct s. Qed.

Lemma replaceUpTo_none (left : nat) (s old new : string) :
  strings.indexFrom 0 s old = (-1)%Z -> replaceUpTo 0 left s old new = s.
Proof.
  destruct left as [|left]; [intros _; apply replaceUpTo_done|].
  induction s as [|c s IH]; intros H; [reflexivity|].
  destruct (indexFrom_none_step c s old 0 ltac:(lia) H) as [Hp Hr].
  cbn [replaceUpTo]. rewrite Hp. f_equal. apply IH.
  apply (indexFrom_none_shift s old (0 + 1) 0); (lia || assumption).
Qed.

(** [CREATE TABLE] has no proper border either. *)
Lemma CREATE_TABLE_no_overlap (c : ascii) (p t : string) :
  strings.HasPrefix (String c p) "CREATE TABLE" = false ->
  strings.HasPrefix (String c p ++ "CREATE TABLE" ++ t) "CREATE TABLE" = false.
Proof.
  intros H.
  destruct p as [|c2 [|c3 [|c4 [|c5 [|c6 [|c7 [|c8 [|c9 [|c10 [|c11 [|c12 p]]]]]]]]]]];
    simpl in *; try exact H;
    repeat match goal with
      | |- context [Ascii.eqb ?x ?y] => destruct (Ascii.eqb x y); simpl
      end; reflexivity.
Qed.

Lemma replace_first_CREATE_TABLE (p t new : string) :
  strings.indexFrom 0 p "CREATE TABLE" = (-1)%Z ->
  replaceUpTo 0 1 (p ++ "CREATE TABLE" ++ t) "CREATE TABLE" new = p ++ new ++ t.
Proof.
  induction p as [|c p IH]; intros H.
  - cbn [append replaceUpTo strings.HasPrefix strings.len String.length Nat.sub
         Ascii.eqb Bool.eqb andb].
    now rewrite replaceUpTo_done.
  - destruct (indexFrom_none_step c p _ 0 ltac:(lia) H) as [Hp Hr].
    change (String c p ++ "CREATE TABLE" ++ t)
      with (String c (p ++ "CREATE TABLE" ++ t)).
    cbn [replaceUpTo].
    change (String c (p ++ "CREATE TABLE" ++ t))
      with (String c p ++ "CREATE TABLE" ++ t).
    rewrite (CREATE_TABLE_no_overlap c p t Hp).
    cbn [append]. f_equal. apply IH.
    apply (indexFrom_none_shift p _ (0 + 1) 0); (lia || assumption).
Qed.

(** X13. When [SHOW CREATE TABLE] gives a text with [CREATE TABLE] in it,
    [getCreateTableSQL] returns that text with [IF NOT EXISTS] added after
    the first [CREATE TABLE] and nothing else changed; a text without
    [CREATE TABLE] is returned as it is. *)
Theorem getCreateTableSQL_if_not_exists :
  forall (db : SQLDB) (hist : list string) (table createTableSQL : string),
    queryRowScan2 db hist ("SHOW CREATE TABLE `" ++ table ++ "`") = Ok createTableSQL ->
    (forall p t,
        strings.Contains p "CREATE TABLE" = false ->
        createTableSQL = p ++ "CREATE TABLE" ++ t ->
        getCreateTableSQL db hist table
        = Ok (p ++ "CREATE TABLE IF NOT EXISTS" ++ t))
    /\ (strings.Contains createTableSQL "CREATE TABLE" = false ->
        getCreateTableSQL db hist table = Ok createTableSQL).
Proof.
  intros db hist table sql Hq. unfold getCreateTableSQL. rewrite Hq.
  unfold Replace. cbn [Z.ltb Z.compare Z.to_nat Pos.to_nat Pos.iter_op Nat.add].
  split.
  - intros p t Hp ->. apply Contains_false_Index in Hp.
    now rewrite replace_first_CREATE_TABLE.
  - intros Hn. apply Contains_false_Index in Hn.
    now rewrite replaceUpTo_none.
Qed.

Lemma getCreateTableSQL_if_not_exists_witness :
  (forall p t,
      strings.Contains p "CREATE TABLE" = false ->
      "CREATE TABLE `a` (`d` date)" = p ++ "CREATE TABLE" ++ t ->
      getCreateTableSQL shopDB [] "a" = Ok (p ++ "CREATE TABLE IF NOT EXISTS" ++ t))
  /\ (strings.Contains "CREATE TABLE `a` (`d` date)" "CREATE TABLE" = false ->
      getCreateTableSQL shopDB [] "a" = Ok "CREATE TABLE `a` (`d` date)").
Proof.
  exact (getCreateTableSQL_if_not_exists shopDB [] "a" _ eq_refl).
Defined.

Example getCreateTableSQL_shop :
  getCreateTableSQL shopDB [] "a" = Ok "CREATE TABLE IF NOT EXISTS `a` (`d` date)".
Proof. reflexivity. Qed.

Lemma scanNames_ok (names acc : list string) :
  scanNames (map Ok names) acc = Ok (acc ++ names)%list.
Proof.
  revert acc; induction names as [|n names IH]; intros acc; cbn [map scanNames].
  - now rewrite app_nil_r.
  - now rewrite IH, <- app_assoc.
Qed.

Lemma scanNames_err (names acc : list string) (e : error)
  (more : list (res string)) :
  scanNames (map Ok names ++ Err e :: more)%list acc = Err e.
Proof.
  revert acc; induction names as [|n names IH]; intros acc;
    cbn [map app scanNames]; [reflexivity | apply IH].
Qed.

(** X14. [getAllTables] returns the names of the rows of [SHOW TABLES] in
    order when every [Scan] succeeds; when one fails it returns the error
    of the first that fails, and none of the names read before it. *)
Theorem getAllTables_names_or_first_error :
  forall (db : SQLDB) (hist : list string) (rows : list (res string)),
    queryStrings db hist "SHOW TABLES" = Ok rows ->
    (forall names, rows = map Ok names -> getAllTables db hist = Ok names)
    /\ (forall names e more,
           rows = (map Ok names ++ Err e :: more)%list ->
           getAllTables db hist = Err e).
Proof.
  intros db hist rows Hq. unfold getAllTables. rewrite Hq. split.
  - intros names ->. apply scanNames_ok.
  - intros names e more ->. apply scanNames_err.
Qed.

Lemma getAllTables_names_or_first_error_witness :
  (forall names, [Ok "a"; Ok "b"] = map Ok names ->
                 getAllTables shopDB [] = Ok names)
  /\ (forall names e more,
         [Ok "a"; Ok "b"] = (map Ok names ++ Err e :: more)%list ->
         getAllTables shopDB [] = Err e).
Proof.
  exact (getAllTables_names_or_first_error shopDB [] _ eq_refl).
Defined.

(** ** The buffered sink *)

Section SafeWriterProperties.

Variable bufioWriter : Type.
Variable Available : bufioWriter -> nat.
Variable buffered : bufioWriter -> string.
Variable output : bufioWriter -> string.
Variable bufioFlush : bufioWriter -> bufioWriter.
Variable bufioWriteString : bufioWriter -> string -> bufioWriter.

(** X15. Over a [bufio.Writer] whose [Flush] hands the buffer over and
    empties it, and whose [WriteString] copies a text that fits the free
    room into the buffer, [SafeWriter.WriteString] of a text no longer
    than the whole buffer leaves the text in the buffer in one piece:
    after what was there when it fits the free room (then nothing is
    handed over), alone after a flush of what was there when it does
    not. *)
Theorem SafeWriter_keeps_text_whole :
  forall (w : bufioWriter) (s : string),
    (forall w, output (bufioFlush w) = output w ++ buffered w
               /\ buffered (bufioFlush w) = ""
               /\ Available (bufioFlush w) = Available w + strings.len (buffered w)) ->
    (forall w s, strings.len s <= Available w ->
                 output (bufioWriteString w s) = output w
                 /\ buffered (bufioWriteString w s) = buffered w ++ s) ->
    strings.len s <= Available w + strings.len (buffered w) ->
    let w' := SafeWriter_WriteString bufioWriter Available bufioFlush
                bufioWriteString w s in
    if (strings.len s <=? Available w)%nat
    then output w' = output w /\ buffered w' = buffered w ++ s
    else output w' = output w ++ buffered w /\ buffered w' = s.
Proof.
  intros w s Hflush Hwrite Hfit. unfold SafeWriter_WriteString. cbv zeta.
  destruct (strings.len s <=? Available w)%nat eqn:E.
  - apply Nat.leb_le in E.
    replace (Available w <? strings.len s)%nat with false
      by (symmetry; apply Nat.ltb_ge; exact E).
    now apply Hwrite.
  - apply Nat.leb_gt in E.
    replace (Available w <? strings.len s)%nat with true
      by (symmetry; apply Nat.ltb_lt; exact E).
    destruct (Hflush w) as [Ho [Hb Ha]].
    destruct (Hwrite (bufioFlush w) s) as [Ho' Hb']; [lia|].
    now rewrite Ho', Hb', Ho, Hb.
Qed.

End SafeWriterProperties.

Lemma SafeWriter_keeps_text_whole_witness :
  let w := mkSimpleWriter "" "-- head" 9 in
  let s := "INSERT INTO t;" in
  let w' := SafeWriter_WriteString simpleWriter room simpleFlush
              simpleWriteString w s in
  if (strings.len s <=? room w)%nat
  then handedOver w' = handedOver w /\ inBuffer w' = inBuffer w ++ s
  else handedOver w' = handedOver w ++ inBuffer w /\ inBuffer w' = s.
Proof.
  apply (SafeWriter_keeps_text_whole simpleWriter room inBuffer
           handedOver simpleFlush simpleWriteString
           (mkSimpleWriter "" "-- head" 9) "INSERT INTO t;").
  - intros w. unfold simpleFlush. cbn [handedOver inBuffer room]. now repeat split.
  - intros w s H. unfold simpleWriteString.
    apply Nat.leb_le in H. rewrite H. cbn [handedOver inBuffer]. now split.
  - vm_compute. lia.
Defined.

(** ** [Dump] *)

Section DumpProperties.

Variable fmtOther : string -> value -> string.
Variable TrimSpace : string -> string.
Variable GetDBNameFromDNS : string -> res string.
Variable sqlOpenDB : string -> res SQLDB.
Variable startTime : Time.
Variable costTime : string.

Lemma applyDumpOptions_snoc (opts : list DumpOption) (opt : DumpOption) :
  applyDumpOptions (opts ++ [opt]) = opt (applyDumpOptions opts).
Proof. unfold applyDumpOptions. now rewrite fold_left_app. Qed.



(** The two loops do not read the list of databases of the options. *)
Lemma Dump_tables_WithDBs (db : SQLDB) (hist : list string) (o : dumpOption)
  (databases tables_ : list string) :
  forall tr,
    Dump_tables fmtOther TrimSpace db hist (WithDBs databases o) tables_ tr
    = Dump_tables fmtOther TrimSpace db hist o tables_ tr.
Proof.
  destruct o as [d ds a ts at_ dr dt wh wr wp]. unfold WithDBs.
  cbn [isData dbs isAllDB tables isAllTable isDropTable isDumpTable where_
       writer withoutPrimaryID].
  induction tables_ as [|table tables' IH]; intros tr; [reflexivity|].
  cbn [Dump_tables isData isDropTable isDumpTable where_ withoutPrimaryID].
  destruct dr, dt, d;
    repeat match goal with
      | |- context [writeTableStruct ?x ?h ?t] =>
          destruct (writeTableStruct x h t) as [? [?|]]
      | |- context [writeTableData ?x1 ?x2 ?x3 ?x4 ?x5 ?x6] =>
          destruct (writeTableData x1 x2 x3 x4 x5 x6) as [? [[?|]|?]]
      end;
    try reflexivity; apply IH.
Qed.

Lemma Dump_dbs_WithDBs (db : SQLDB) (o : dumpOption)
  (databases dbs_ : list string) :
  forall hist tr,
    Dump_dbs fmtOther TrimSpace db hist (WithDBs databases o) dbs_ tr
    = Dump_dbs fmtOther TrimSpace db hist o dbs_ tr.
Proof.
  induction dbs_ as [|dbStr dbs' IH]; intros hist tr; [reflexivity|].
  cbn [Dump_dbs]. cbv zeta.
  replace (isAllTable (WithDBs databases o)) with (isAllTable o) by reflexivity.
  replace (tables (WithDBs databases o)) with (tables o) by reflexivity.
  destruct (execOn db hist _); [reflexivity|].
  destruct (if isAllTable o then _ else _); [|reflexivity].
  rewrite Dump_tables_WithDBs.
  destruct (Dump_tables _ _ _ _ _ _ _) as [? [?| |]]; try reflexivity.
  apply IH.
Qed.

(** X17. With [WithAllDatabases], which databases the options list does
    not matter as long as they list one; but when they list none, the DSN
    must still yield a database name, or [Dump] fails before writing
    anything. *)
Theorem Dump_all_databases :
  forall (dns : string) (o : dumpOption),
    isAllDB o = true ->
    (forall databases,
        dbs o <> [] -> databases <> [] ->
        Dump_with fmtOther TrimSpace GetDBNameFromDNS sqlOpenDB startTime costTime
          dns (WithDBs databases o)
        = Dump_with fmtOther TrimSpace GetDBNameFromDNS sqlOpenDB startTime costTime
            dns o)
    /\ (forall e,
           dbs o = [] -> GetDBNameFromDNS dns = Err e ->
           Dump_with fmtOther TrimSpace GetDBNameFromDNS sqlOpenDB startTime costTime
             dns o
           = ([], Returned (Some e))).
Proof.
  intros dns o Hall. split.
  - intros databases Hne Hne'.
    destruct o as [d ds a ts at_ dr dt wh wr wp]. cbn [isAllDB dbs] in *. subst a.
    unfold Dump_with, WithDBs.
    cbn [isData dbs isAllDB tables isAllTable isDropTable isDumpTable where_
         writer withoutPrimaryID].
    destruct ds as [|x ds]; [contradiction|].
    destruct databases as [|y databases]; [contradiction|].
    cbn [List.length Nat.eqb isData dbs isAllDB tables isAllTable isDropTable
         isDumpTable where_ writer withoutPrimaryID].
    destruct (List.length ts =? 0)%nat;
      cbn [isData dbs isAllDB tables isAllTable isDropTable isDumpTable where_
           writer withoutPrimaryID];
      destruct (sqlOpenDB dns) as [db|e]; try reflexivity;
      (destruct (getDBs db []) as [ds'|e]; [|reflexivity]).
    + change (mkDumpOption d (y :: databases) true ts true dr dt wh wr wp)
        with (WithDBs (y :: databases)
                (mkDumpOption d (x :: ds) true ts true dr dt wh wr wp)).
      now rewrite Dump_dbs_WithDBs.
    + change (mkDumpOption d (y :: databases) true ts at_ dr dt wh wr wp)
        with (WithDBs (y :: databases)
                (mkDumpOption d (x :: ds) true ts at_ dr dt wh wr wp)).
      now rewrite Dump_dbs_WithDBs.
  - intros e Hd He. unfold Dump_with. now rewrite Hd, He.
Qed.

Lemma Forall_snoc {A : Type} (P : A -> Prop) (l : list A) (x : A) :
  Forall P l -> P x -> Forall P (l ++ [x])%list.
Proof. intros Hl Hx. apply Forall_app. split; [exact Hl | now constructor]. Qed.

Lemma writeTableStruct_writes (db : SQLDB) (hist : list string) (table : string) :
  Forall (fun ev => withoutRows ev = true)
    (map DBuf (fst (writeTableStruct db hist table))).
Proof.
  unfold writeTableStruct. destruct (getCreateTableSQL db hist table);
    cbn [fst map app]; repeat constructor.
Qed.

Lemma Dump_tables_without_data (db : SQLDB) (hist : list string) (o : dumpOption)
  (tables_ : list string) :
  isData o = false ->
  forall tr,
    Forall (fun ev => withoutRows ev = true) tr ->
    Forall (fun ev => withoutRows ev = true)
      (fst (Dump_tables fmtOther TrimSpace db hist o tables_ tr))
    /\ (forall msg,
           snd (Dump_tables fmtOther TrimSpace db hist o tables_ tr) <> Panic msg).
Proof.
  intros Hd. induction tables_ as [|table tables' IH]; intros tr Htr.
  - cbn [Dump_tables fst snd]. split; [exact Htr | discriminate].
  - cbn [Dump_tables]. rewrite Hd.
    set (tr1 := if isDropTable o then _ else tr).
    assert (H1 : Forall (fun ev => withoutRows ev = true) tr1).
    { unfold tr1. destruct (isDropTable o); [|exact Htr].
      apply Forall_snoc; [exact Htr | reflexivity]. }
    destruct (isDumpTable o).
    + pose proof (writeTableStruct_writes db hist table) as Hs.
      destruct (writeTableStruct db hist table) as [es [e|]]; cbn [fst] in Hs.
      * cbn [fst snd]. split; [|discriminate].
        apply Forall_app. now split.
      * apply IH. apply Forall_app. now split.
    + now apply IH.
Qed.

Lemma Dump_dbs_without_data (db : SQLDB) (o : dumpOption) (dbs_ : list string) :
  isData o = false ->
  forall hist tr,
    Forall (fun ev => withoutRows ev = true) tr ->
    Forall (fun ev => withoutRows ev = true)
      (fst (Dump_dbs fmtOther TrimSpace db hist o dbs_ tr))
    /\ (forall msg,
           snd (Dump_dbs fmtOther TrimSpace db hist o dbs_ tr) <> Panic msg).
Proof.
  intros Hd. induction dbs_ as [|dbStr dbs' IH]; intros hist tr Htr.
  - cbn [Dump_dbs fst snd]. split; [exact Htr | discriminate].
  - cbn [Dump_dbs]. cbv zeta.
    assert (H1 : Forall (fun ev => withoutRows ev = true)
                   (tr ++ [DExec ("USE `" ++ dbStr ++ "`")])%list)
      by (apply Forall_snoc; [exact Htr | reflexivity]).
    destruct (execOn db hist _); [cbn [fst snd]; split; [exact H1 | discriminate]|].
    destruct (if isAllTable o then _ else _) as [ts|e];
      [|cbn [fst snd]; split; [exact H1 | discriminate]].
    match goal with
    | |- context [Dump_tables _ _ _ ?h _ ts ?t] =>
        destruct (Dump_tables_without_data db h o ts Hd t) as [Hf Hp];
        [apply Forall_snoc; [exact H1 | reflexivity]|];
        destruct (Dump_tables fmtOther TrimSpace db h o ts t) as [tr2 [u|e|msg]];
        cbn [fst snd] in Hf, Hp
    end.
    + now apply IH.
    + cbn [fst snd]. split; [exact Hf | discriminate].
    + exfalso. now apply (Hp msg).
Qed.

(** X18. Without [WithData], [Dump] starts no consumer goroutine, sends
    no statement, and does not panic. *)
Theorem Dump_without_data_reads_no_rows :
  forall (dns : string) (opts : list DumpOption),
    isData (applyDumpOptions opts) = false ->
    Forall (fun ev => withoutRows ev = true)
      (fst (Dump fmtOther TrimSpace GetDBNameFromDNS sqlOpenDB startTime costTime
              dns opts))
    /\ (forall msg,
           snd (Dump fmtOther TrimSpace GetDBNameFromDNS sqlOpenDB startTime costTime
                  dns opts) <> Panicked msg).
Proof.
  intros dns opts Hd. unfold Dump, Dump_with.
  set (o0 := applyDumpOptions opts) in *.
  destruct (if (List.length (dbs o0) =? 0)%nat then _ else _) as [o1|e] eqn:E1;
    [|cbn [fst snd]; split; [constructor | discriminate]].
  assert (Hd1 : isData o1 = false).
  { destruct (List.length (dbs o0) =? 0)%nat.
    - destruct (GetDBNameFromDNS dns); [|discriminate].
      injection E1 as <-. exact Hd.
    - injection E1 as <-. exact Hd. }
  cbv zeta.
  set (o2 := if (List.length (tables o1) =? 0)%nat then _ else o1).
  assert (Hd2 : isData o2 = false)
    by (unfold o2; destruct (List.length (tables o1) =? 0)%nat; exact Hd1).
  set (tr0 := [DNewBuf _ _; _; _; _; _; _]).
  assert (H0 : Forall (fun ev => withoutRows ev = true) tr0)
    by (unfold tr0; repeat constructor).
  destruct (sqlOpenDB dns) as [db|e].
  2:{ cbn [fst snd]. split; [|discriminate].
      apply Forall_snoc; [exact H0 | reflexivity]. }
  assert (Hloop :
    Forall (fun ev => withoutRows ev = true)
      (fst match (if isAllDB o2 then getDBs db [] else Ok (dbs o2)) with
           | Err e => (tr0, Return (Some e))
           | Ok dbs_ => Dump_dbs fmtOther TrimSpace db [] o2 dbs_ tr0
           end)
    /\ (forall msg,
           snd match (if isAllDB o2 then getDBs db [] else Ok (dbs o2)) with
               | Err e => (tr0, Return (Some e))
               | Ok dbs_ => Dump_dbs fmtOther TrimSpace db [] o2 dbs_ tr0
               end <> Panic msg)).
  { destruct (if isAllDB o2 then _ else _) as [ds|e].
    - now apply Dump_dbs_without_data.
    - cbn [fst snd]. split; [exact H0 | discriminate]. }
  destruct (match (if isAllDB o2 then getDBs db [] else Ok (dbs o2)) with
            | Err e => (tr0, Return (Some e))
            | Ok dbs_ => Dump_dbs fmtOther TrimSpace db [] o2 dbs_ tr0
            end) as [tr1 [u|e|msg]]; cbn [fst snd] in Hloop |- *;
    destruct Hloop as [Hf Hp].
  - split; [|discriminate]. apply Forall_app. split; [exact Hf|].
    repeat constructor.
  - split; [|discriminate]. apply Forall_app. split; [exact Hf|].
    repeat constructor.
  - exfalso. now apply (Hp msg).
Qed.

(** X19. In the loop over the tables, a table whose first value fetched is
    of a dynamic type its temporal column does not expect does not stop
    [Dump]: the table's comment lines are written, a consumer is started
    that is never told to stop, and the loop goes on with the next table
    as after a complete dump. *)
Theorem Dump_goes_on_after_temporal_mismatch :
  forall (db : SQLDB) (hist : list string) (o : dumpOption)
         (table : string) (tables' : list string) (tr : list dumpEvent)
         (lineRows : Rows) (columns : list string)
         (columnType : ColumnType) (columnTypes : list ColumnType)
         (col : value) (row : list value) (more : list (res (list value))),
    isDropTable o = false -> isDumpTable o = false -> isData o = true ->
    queryOn db hist (selectQuery TrimSpace table (where_ o)) = Ok lineRows ->
    Columns lineRows = Ok columns ->
    ColumnTypes lineRows = Ok (columnType :: columnTypes) ->
    fetched lineRows = Ok (col :: row) :: more ->
    temporalMismatch (canonicalType (DatabaseTypeName columnType)) col = true ->
    Dump_tables fmtOther TrimSpace db hist o (table :: tables') tr
    = Dump_tables fmtOther TrimSpace db hist o tables'
        (tr ++ map DBuf (header table ++ [EGo]))%list.
Proof.
  intros db hist o table tables' tr lineRows columns ct cts col row more
         Hdrop Hstruct Hdata Hq Hc Ht Hf Hm.
  cbn [Dump_tables]. rewrite Hdrop, Hstruct, Hdata. cbv zeta.
  assert (Hw : writeTableData fmtOther TrimSpace (queryOn db hist) table
                 (where_ o) (withoutPrimaryID o)
               = ((header table ++ [EGo])%list, Returned None)).
  { unfold writeTableData. rewrite Hq, Hc, Ht, Hf.
    cbn [writeTableData_rows writeTableData_row].
    replace (Z.to_nat 0) with 0 by reflexivity. cbn [nth_error].
    now rewrite (temporal_mismatch_returns_err _ _ _ _ _ _ Hm). }
  now rewrite Hw.
Qed.

End DumpProperties.


(** With no table named, every table of the database is dropped in the
    dump, in the order of [SHOW TABLES]. *)
Example Dump_drops_every_table :
  Dump (fun _ _ => "") strings.TrimSpaceASCII dbNameOk (fun _ => Ok shopDB)
    (mkTime 2020 1 1 0 0 0) "1s" "dsn" [WithDBs ["shop"]; WithDropTable]
  = ((Dump_opening (mkTime 2020 1 1 0 0 0)
        (applyDumpOptions [WithDBs ["shop"]; WithDropTable])
      ++ [DExec "USE `shop`";
          DBuf (EWrite ("USE `shop`;" ++ nl));
          DBuf (EWrite ("DROP TABLE IF EXISTS `a`;" ++ nl));
          DBuf (EWrite ("DROP TABLE IF EXISTS `b`;" ++ nl));
          DBuf (EWrite ("-- ----------------------------" ++ nl));
          DBuf (EWrite ("-- Dump completed" ++ nl));
          DBuf (EWrite ("-- Cost Time: 1s" ++ nl));
          DBuf (EWrite ("-- ----------------------------" ++ nl));
          DFlush; DClose; DFlush])%list,
     Returned None).
Proof. vm_compute. reflexivity. Qed.

(** When [SHOW TABLES] fails nothing of the database is written. *)
Example Dump_fails_without_tables :
  Dump (fun _ _ => "") strings.TrimSpaceASCII dbNameOk (fun _ => Ok noTablesDB)
    (mkTime 2020 1 1 0 0 0) "1s" "dsn" [WithData]
  = ((Dump_opening (mkTime 2020 1 1 0 0 0) (applyDumpOptions [WithData])
      ++ [DExec "USE `db`"; DClose; DFlush])%list,
     Returned (Some (errorString "no tables"))).
Proof. vm_compute. reflexivity. Qed.

Lemma Dump_all_databases_witness :
  (forall databases,
      dbs (applyDumpOptions [WithDBs ["x"]; WithAllDatabases]) <> [] ->
      databases <> [] ->
      Dump_with (fun _ _ => "") strings.TrimSpaceASCII dbNameOk
        (fun _ => Ok shopDB) (mkTime 2020 1 1 0 0 0) "1s" "dsn"
        (WithDBs databases (applyDumpOptions [WithDBs ["x"]; WithAllDatabases]))
      = Dump_with (fun _ _ => "") strings.TrimSpaceASCII dbNameOk
          (fun _ => Ok shopDB) (mkTime 2020 1 1 0 0 0) "1s" "dsn"
          (applyDumpOptions [WithDBs ["x"]; WithAllDatabases]))
  /\ (forall e,
         dbs (applyDumpOptions [WithDBs ["x"]; WithAllDatabases]) = [] ->
         dbNameOk "dsn" = Err e ->
         Dump_with (fun _ _ => "") strings.TrimSpaceASCII dbNameOk
           (fun _ => Ok shopDB) (mkTime 2020 1 1 0 0 0) "1s" "dsn"
           (applyDumpOptions [WithDBs ["x"]; WithAllDatabases])
         = ([], Returned (Some e))).
Proof.
  exact (Dump_all_databases (fun _ _ => "") strings.TrimSpaceASCII dbNameOk
           (fun _ => Ok shopDB) (mkTime 2020 1 1 0 0 0) "1s" "dsn"
           (applyDumpOptions [WithDBs ["x"]; WithAllDatabases]) eq_refl).
Defined.

Lemma Dump_without_data_reads_no_rows_witness :
  Forall (fun ev => withoutRows ev = true)
    (fst (Dump (fun _ _ => "") strings.TrimSpaceASCII dbNameOk
            (fun _ => Ok shopDB) (mkTime 2020 1 1 0 0 0) "1s" "dsn"
            [WithDumpTable; WithDropTable]))
  /\ (forall msg,
         snd (Dump (fun _ _ => "") strings.TrimSpaceASCII dbNameOk
                (fun _ => Ok shopDB) (mkTime 2020 1 1 0 0 0) "1s" "dsn"
                [WithDumpTable; WithDropTable]) <> Panicked msg).
Proof.
  exact (Dump_without_data_reads_no_rows (fun _ _ => "") strings.TrimSpaceASCII
           dbNameOk (fun _ => Ok shopDB) (mkTime 2020 1 1 0 0 0) "1s" "dsn"
           [WithDumpTable; WithDropTable] eq_refl).
Defined.

Lemma Dump_goes_on_after_temporal_mismatch_witness :
  Dump_tables (fun _ _ => "") strings.TrimSpaceASCII shopDB ["USE `shop`"]
    (applyDumpOptions [WithData]) ["a"; "b"] []
  = Dump_tables (fun _ _ => "") strings.TrimSpaceASCII shopDB ["USE `shop`"]
      (applyDumpOptions [WithData]) ["b"]
      ([] ++ map DBuf (header "a" ++ [EGo]))%list.
Proof.
  exact (Dump_goes_on_after_temporal_mismatch (fun _ _ => "")
           strings.TrimSpaceASCII shopDB ["USE `shop`"]
           (applyDumpOptions [WithData]) "a" ["b"] [] _ ["d"]
           (mkColumnType "d" "DATE") [] (VBytes "2020-01-01") [] []
           eq_refl eq_refl eq_refl eq_refl eq_refl eq_refl eq_refl eq_refl).
Defined.

(** A whole dump of the two tables, both of which stop at the mismatch:
    [Dump] returns [nil] and writes the closing comment. *)
Example Dump_reports_success :
  snd (Dump (fun _ _ => "") strings.TrimSpaceASCII dbNameOk
         (fun _ => Ok shopDB) (mkTime 2020 1 1 0 0 0) "1s" "dsn" [WithData])
  = Returned None
  /\ sends (flat_map (fun ev => match ev with DBuf e => [e] | _ => [] end)
              (fst (Dump (fun _ _ => "") strings.TrimSpaceASCII dbNameOk
                      (fun _ => Ok shopDB) (mkTime 2020 1 1 0 0 0) "1s" "dsn"
                      [WithData])))
     = [].
Proof. vm_compute. split; reflexivity. Qed.

(** ** Read errors *)

Section ReadErrors.

Variable TrimSpace : string -> string.
Variable GetDBNameFromDNS : string -> res string.
Variable sqlOpen : string -> option error.
Variable dbExec : list string -> string -> option error.

Lemma Source_pull_fail (count : nat) :
  forall (r : Reader) (acc batch : list string) (r' : Reader),
    Source_pull TrimSpace count r acc = Ok (batch, r') -> fail r' = fail r.
Proof.
  induction count as [|count IH]; intros r acc batch r' H; cbn [Source_pull] in H.
  - now injection H as _ <-.
  - unfold ReadString in H. destruct (pending r) as [|l ls].
    + destruct (is_EOF (fail r)); [|discriminate]. now injection H as _ <-.
    + rewrite trim_trimmed in H.
      destruct (strings.HasPrefix _ "INSERT INTO").
      * now apply IH in H.
      * now injection H as _ <-.
Qed.

Lemma Source_iter_fail (o : sourceOption) (r r' : Reader)
  (log log' : list string) :
  Source_iter TrimSpace dbExec o r log = (log', Next r') -> fail r' = fail r.
Proof.
  unfold Source_iter, ReadString. destruct (pending r) as [|l ls].
  - destruct (is_EOF (fail r)); discriminate.
  - rewrite trim_trimmed.
    destruct ((1 <? mergeInsertSize o)%Z && strings.HasPrefix _ "INSERT INTO").
    + destruct (Source_pull _ _ _ _) as [[sqls r1]|] eqn:Hs; [|discriminate].
      destruct (mergeInsert sqls); [|discriminate].
      unfold dbWrapper_Exec.
      destruct (if dryRun o then None else dbExec log _); [discriminate|].
      intros H. apply pair_equal_spec in H as [_ H]. injection H as <-.
      now apply Source_pull_fail in Hs.
    + unfold dbWrapper_Exec.
      destruct (if dryRun o then None else dbExec log _); [discriminate|].
      intros H. apply pair_equal_spec in H as [_ H]. now injection H as <-.
Qed.

Lemma Source_loop_ends_on_EOF :
  forall (o : sourceOption) (r : Reader) (log : list string),
    snd (Source_loop TrimSpace dbExec o r log) = None -> fail r = EOF.
Proof.
  apply (Source_loop_elim TrimSpace dbExec
           (fun o r log result => snd result = None -> fail r = EOF)).
  - intros o r log log' Hiter _ _.
    unfold Source_iter, ReadString in Hiter. destruct (pending r) as [|l ls].
    + destruct (fail r); [reflexivity | discriminate].
    + rewrite trim_trimmed in Hiter. exfalso.
      destruct ((1 <? mergeInsertSize o)%Z && strings.HasPrefix _ "INSERT INTO").
      * destruct (Source_pull _ _ _ _) as [[sqls r1]|]; [|discriminate].
        destruct (mergeInsert sqls); [|discriminate].
        unfold dbWrapper_Exec in Hiter.
        destruct (if dryRun o then None else dbExec log _); discriminate.
      * unfold dbWrapper_Exec in Hiter.
        destruct (if dryRun o then None else dbExec log _); discriminate.
  - intros o r log log' e _ _ H. discriminate.
  - intros o r log log' r' Hiter IH _ H.
    rewrite <- (Source_iter_fail _ _ _ _ _ Hiter). now apply IH.
Qed.

(** X20. A replay of a stream that ends on a read error other than
    [io.EOF] never returns [nil], with or without merging: it fails, at
    the latest when the reader reports that error instead of a
    statement. *)
Theorem read_error_fails_replay :
  forall (dns : string) (reader : Reader) (opts : list SourceOption),
    fail reader <> EOF ->
    snd (Source TrimSpace GetDBNameFromDNS sqlOpen dbExec dns reader opts) <> None.
Proof.
  intros dns reader opts Hf. unfold Source. cbv zeta.
  generalize (applyOptions opts) as o. intros o.
  destruct (GetDBNameFromDNS dns); [|discriminate].
  destruct (sqlOpen dns); [discriminate|].
  unfold dbWrapper_Exec.
  destruct (if dryRun o then None else dbExec [] _); [discriminate|].
  destruct (if dryRun o then None else dbExec _ "SET autocommit=0;");
    [discriminate|].
  match goal with
  | |- context [Source_loop _ _ _ _ ?l] =>
      pose proof (Source_loop_ends_on_EOF o reader l) as Hloop
  end.
  destruct (Source_loop TrimSpace dbExec o reader _) as [log1 [e|]];
    [discriminate|].
  exfalso. now apply Hf, Hloop.
Qed.

End ReadErrors.

Lemma read_error_fails_replay_witness :
  snd (Source strings.TrimSpaceASCII dbNameOk openOk execOk "dsn"
         (mkReader ["INSERT INTO `t` VALUES (1);"] "" (errorString "connection reset"))
         [WithMergeInsert 2])
  <> None.
Proof.
  apply (read_error_fails_replay strings.TrimSpaceASCII dbNameOk openOk execOk
           "dsn"
           (mkReader ["INSERT INTO `t` VALUES (1);"] "" (errorString "connection reset"))
           [WithMergeInsert 2]).
  discriminate.
Defined.

(** The same replay, evaluated: the error is met while the batch of the
    first statement is being filled, so that statement is not executed
    either; neither [COMMIT;] nor [ROLLBACK;] follows. *)
Example read_error_replay :
  Source strings.TrimSpaceASCII dbNameOk openOk execOk "dsn"
    (mkReader ["INSERT INTO `t` VALUES (1);"] "" (errorString "connection reset"))
    [WithMergeInsert 2]
  = (["USE db;"; "SET autocommit=0;"], Some (errorString "connection reset")).
Proof. vm_compute. reflexivity. Qed.
